(** * Excalibur, the Nostr event cloner: the clone pipeline of [src/App.tsx]

    The development embeds [handleCloneEvents], the event handler that
    decodes the two keys, queries the relays, re-signs every fetched event
    under the destination identity and publishes the copies.

    The handler is effectful: it updates React state through setters, it
    calls into nostr-tools (nip19, SimplePool, getPublicKey, finalizeEvent),
    it reads the clock and it can throw.  It is embedded in a small monad
    that threads the component state and a chronological record of every
    call that leaves the component, and that keeps the state reached when an
    exception is thrown (a JavaScript [throw] does not roll anything back). *)

From Stdlib Require Import String Ascii List ZArith Bool Arith Lia.
From Stdlib Require Import DecimalString.
Import ListNotations.

Local Open Scope string_scope.
Local Open Scope list_scope.

(** ** Data *)

(** [interface NostrEvent]: the seven fields of a signed event. *)
Module Event.
Record t : Type := mk {
  id : string;
  pubkey : string;
  created_at : Z;
  kind : Z;
  tags : list (list string);
  content : string;
  sig : string
}.
End Event.

(** The five fields that the canonical serialization covers: the event hash
    is a function of these and of nothing else. *)
Record UnsignedEvent : Type := mkUnsigned {
  u_pubkey : string;
  u_created_at : Z;
  u_kind : Z;
  u_tags : list (list string);
  u_content : string
}.

Definition unsigned (e : Event.t) : UnsignedEvent :=
  {| u_pubkey := Event.pubkey e;
     u_created_at := Event.created_at e;
     u_kind := Event.kind e;
     u_tags := Event.tags e;
     u_content := Event.content e |}.

(** A secret key is a [Uint8Array]. *)
Definition SecretKey : Type := list Byte.byte.

(** What [nip19.decode] returns: a tag and the data that goes with it.  The
    pointer payloads (profile, event, address) are kept as their main field
    and their relay hints; the handler never looks inside them. *)
Inductive DecodeResult : Type :=
| Dnpub (data : string)
| Dnsec (data : SecretKey)
| Dnote (data : string)
| Dnprofile (pk : string) (hints : list string)
| Dnevent (eid : string) (hints : list string)
| Dnaddr (identifier : string) (hints : list string).

(** [decoded.type] *)
Definition type_of (d : DecodeResult) : string :=
  match d with
  | Dnpub _ => "npub"
  | Dnsec _ => "nsec"
  | Dnote _ => "note"
  | Dnprofile _ _ => "nprofile"
  | Dnevent _ _ => "nevent"
  | Dnaddr _ _ => "naddr"
  end.

(** A thrown value, or the reason of a rejected promise.  The handler tells
    [Error] instances from other values ([error instanceof Error]); an
    [AggregateError] is an [Error] too. *)
#[warnings="-register-all"]
Inductive Thrown : Type :=
| JsError (message : string)
| JsValue (shown : string)
| AggregateError (message : string) (reasons : list Thrown).

(** A settled promise. *)
Inductive Settled (A : Type) : Type :=
| Fulfilled (v : A)
| Rejected (reason : Thrown).
Arguments Fulfilled {A} v.
Arguments Rejected {A} reason.

(** The query filter passed to [pool.querySync]. *)
Record Filter : Type := mkFilter {
  kinds : list Z;
  authors : list string;
  limit : Z
}.

(** The React state of the component. *)
Record UI : Type := mkUI {
  npub : string;
  relays : list string;
  events : list Event.t;
  isModalOpen : bool;
  nsec : string;
  isLoading : bool;
  error : option string;
  status : string
}.

(** Every call that leaves the component, in the order it is made. *)
Inductive Call : Type :=
| CDecode (input : string)
| CQuerySync (rs : list string) (f : Filter)
| CGetPublicKey (sk : SecretKey)
| CDateNow
| CFinalizeEvent (template : Event.t) (sk : SecretKey)
| CPublish (rs : list string) (ev : Event.t)
| CSetTimeout (ms : Z)
| CConsoleWarn (msg : string) (err : Thrown)
| CConsoleError (msg : string) (err : Thrown).

(** The state threaded through the handler: the component state, how many
    times the clock was read and [pool.publish] was called (the two index
    their answers by call number), and the calls made so far. *)
Record State : Type := mkState {
  ui : UI;
  reads : nat;
  pubs : nat;
  trace : list Call
}.

(** ** The monad: state, and exceptions that keep the state *)

Definition M (A : Type) : Type := State -> (Thrown + A) * State.

Definition ret {A} (a : A) : M A := fun s => (inr a, s).

Definition bind {A B} (m : M A) (k : A -> M B) : M B :=
  fun s => match m s with
           | (inr a, s1) => k a s1
           | (inl e, s1) => (inl e, s1)
           end.

Definition throw {A} (e : Thrown) : M A := fun s => (inl e, s).

(** [try { body } catch (e) { handler e } finally { fin }] *)
Definition try_catch_finally {A} (body : M A) (handler : Thrown -> M A)
    (fin : M unit) : M A :=
  fun s =>
    let '(r, s1) := match body s with
                    | (inr a, s1) => (inr a, s1)
                    | (inl e, s1) => handler e s1
                    end in
    match fin s1 with
    | (inr _, s2) => (r, s2)
    | (inl e, s2) => (inl e, s2)
    end.

(** [try { body } catch (e) { handler e }] *)
Definition try_catch {A} (body : M A) (handler : Thrown -> M A) : M A :=
  fun s => match body s with
           | (inr a, s1) => (inr a, s1)
           | (inl e, s1) => handler e s1
           end.

Declare Scope js_scope.
Delimit Scope js_scope with js.
Notation "x <- m ;; k" := (bind m (fun x => k))
  (at level 100, m at next level, right associativity) : js_scope.
Notation "m ;; k" := (bind m (fun _ => k))
  (at level 100, right associativity) : js_scope.
Local Open Scope js_scope.

Definition call (c : Call) : M unit :=
  fun s => (inr tt, {| ui := ui s; reads := reads s; pubs := pubs s;
                       trace := trace s ++ [c] |}).

Definition modify_ui (f : UI -> UI) : M unit :=
  fun s => (inr tt, {| ui := f (ui s); reads := reads s; pubs := pubs s;
                       trace := trace s |}).

Definition get_ui : M UI := fun s => (inr (ui s), s).

(** A value that a library call either returns or throws. *)
Definition lift {A} (r : Thrown + A) : M A := fun s => (r, s).

(** [await p] *)
Definition await {A} (p : Settled A) : M A :=
  match p with
  | Fulfilled v => ret v
  | Rejected e => throw e
  end.

(** The state setters.  A setter replaces one field of the component state
    and leaves the others. *)
Definition with_events (v : list Event.t) (u : UI) : UI :=
  {| npub := npub u; relays := relays u; events := v;
     isModalOpen := isModalOpen u; nsec := nsec u; isLoading := isLoading u;
     error := error u; status := status u |}.

Definition with_isModalOpen (v : bool) (u : UI) : UI :=
  {| npub := npub u; relays := relays u; events := events u;
     isModalOpen := v; nsec := nsec u; isLoading := isLoading u;
     error := error u; status := status u |}.

Definition with_isLoading (v : bool) (u : UI) : UI :=
  {| npub := npub u; relays := relays u; events := events u;
     isModalOpen := isModalOpen u; nsec := nsec u; isLoading := v;
     error := error u; status := status u |}.

Definition with_error (v : option string) (u : UI) : UI :=
  {| npub := npub u; relays := relays u; events := events u;
     isModalOpen := isModalOpen u; nsec := nsec u; isLoading := isLoading u;
     error := v; status := status u |}.

Definition with_status (v : string) (u : UI) : UI :=
  {| npub := npub u; relays := relays u; events := events u;
     isModalOpen := isModalOpen u; nsec := nsec u; isLoading := isLoading u;
     error := error u; status := v |}.

Definition setEvents (v : list Event.t) : M unit := modify_ui (with_events v).
Definition setIsModalOpen (v : bool) : M unit := modify_ui (with_isModalOpen v).
Definition setIsLoading (v : bool) : M unit := modify_ui (with_isLoading v).
Definition setError (v : option string) : M unit := modify_ui (with_error v).
Definition setStatus (v : string) : M unit := modify_ui (with_status v).

(** A number inside a template literal. *)
Definition show (n : nat) : string := NilEmpty.string_of_uint (Nat.to_uint n).

(** [s.startsWith(p)] *)
Definition startsWith (s p : string) : bool := String.prefix p s.

Arguments startsWith : simpl never.
Arguments show : simpl never.

(** A string in a condition: the empty string is the only falsy one. *)
Definition truthy (s : string) : bool :=
  match s with
  | EmptyString => false
  | String _ _ => true
  end.

(** [error instanceof Error ? error.message : 'Unknown error occurred'] *)
Definition message_of (e : Thrown) : string :=
  match e with
  | JsError m => m
  | AggregateError m _ => m
  | JsValue _ => "Unknown error occurred"
  end.

Definition is_fulfilled {A} (p : Settled A) : bool :=
  match p with
  | Fulfilled _ => true
  | Rejected _ => false
  end.

(** The reasons of the rejected promises of a list, in order. *)
Fixpoint reasons {A} (ps : list (Settled A)) : list Thrown :=
  match ps with
  | [] => []
  | Fulfilled _ :: rest => reasons rest
  | Rejected e :: rest => e :: reasons rest
  end.

Definition all_rejected : string := "All promises were rejected".

(** [Promise.any]: fulfilled when one of the promises is, rejected with an
    [AggregateError] of all the reasons when every one is rejected (an empty
    list included).  The handler drops the value, so which of several
    fulfilled promises wins is left out: the first in the list stands in. *)
Definition Promise_any {A} (ps : list (Settled A)) : Settled A :=
  match find is_fulfilled ps with
  | Some p => p
  | None => Rejected (AggregateError all_rejected (reasons ps))
  end.

(** [Promise.resolve(v)] for a value [v] that is not a thenable: a promise
    fulfilled with [v].  [Promise.any] takes every element of its argument
    through it, so an element that is an array, and not a promise, counts as
    fulfilled at once with the array as its value. *)
Definition Promise_resolve {A} (v : A) : Settled A := Fulfilled v.

(** ** Reading the record of calls *)

Definition is_query (c : Call) : bool :=
  match c with CQuerySync _ _ => true | _ => false end.

Definition is_publish (c : Call) : bool :=
  match c with CPublish _ _ => true | _ => false end.

Definition is_finalize (c : Call) : bool :=
  match c with CFinalizeEvent _ _ => true | _ => false end.

Definition is_clock (c : Call) : bool :=
  match c with CDateNow => true | _ => false end.

Definition is_derive (c : Call) : bool :=
  match c with CGetPublicKey _ => true | _ => false end.

Definition is_timeout (c : Call) : bool :=
  match c with CSetTimeout _ => true | _ => false end.

Definition is_warn (c : Call) : bool :=
  match c with CConsoleWarn _ _ => true | _ => false end.

(** The calls of one sort, in order. *)
Definition only (p : Call -> bool) (t : list Call) : list Call := filter p t.

(** What a part of the handler leaves alone whatever happens in it: the
    list of shown events, the error message and the queries made. *)
Definition keeps (s s' : State) : Prop :=
  events (ui s') = events (ui s) /\
  error (ui s') = error (ui s) /\
  only is_query (trace s') = only is_query (trace s).

(** The messages of the fatal errors, by the kind of error they report. *)
Definition InvalidFormat_npub : string :=
  "Invalid npub format. Must start with npub1".
Definition WrongKeyType_npub : string := "Invalid npub".
Definition InvalidFormat_nsec : string :=
  "Invalid nsec format. Must start with nsec1".
Definition WrongKeyType_nsec : string := "Invalid nsec".
Definition NoEventsFound : string := "No events found for this pubkey".

(** The filter of the query for the notes of one author. *)
Definition notes_of (pubkeyHex : string) : Filter :=
  {| kinds := [1%Z]; authors := [pubkeyHex]; limit := 50%Z |}.

(** ** The handler

    The library and the outside world are parameters: the handler is proved
    against every bech32 decoder, relay pool, signer and clock. *)

Section Pipeline.

(** [nip19.decode]: the decoded key, or the error it throws. *)
Variable nip19_decode : string -> Thrown + DecodeResult.
(** [pool.querySync], awaited: what its promise settles to.  A run is
    followed to its end; a query whose promise stays pending for ever is not
    described. *)
Variable pool_querySync : list string -> Filter -> Thrown + list Event.t.
(** [getPublicKey] *)
Variable getPublicKey : SecretKey -> Thrown + string.
(** The hash of the canonical serialization, and the Schnorr signature. *)
Variable getEventHash : UnsignedEvent -> string.
Variable schnorr_sign : string -> SecretKey -> Thrown + string.
(** [Date.now()] at its n-th reading, in milliseconds. *)
Variable Date_now : nat -> Z.
(** What the n-th [pool.publish] call returns: an array with one promise
    per url it was given ([Promise<string>[]]), each with the way it
    settles. *)
Variable pool_publish : nat -> list string -> Event.t -> list (Settled string).

(** Modelled from the spec: [finalizeEvent] of nostr-tools, the
    [signAsNewEvent] of section 4.2, whose code is not part of the
    repository.  The id is the hash of the canonical serialization of
    (pubkey, created_at, kind, tags, content), the signature is computed over
    the id with the secret key, and the other fields are those of the
    template. *)
Definition finalizeEvent (t : Event.t) (sk : SecretKey) : Thrown + Event.t :=
  let h := getEventHash (unsigned t) in
  match schnorr_sign h sk with
  | inr s => inr {| Event.id := h;
                    Event.pubkey := Event.pubkey t;
                    Event.created_at := Event.created_at t;
                    Event.kind := Event.kind t;
                    Event.tags := Event.tags t;
                    Event.content := Event.content t;
                    Event.sig := s |}
  | inl e => inl e
  end.

(** [Math.floor(Date.now() / 1000)], with the reading counted. *)
Definition now_seconds : M Z :=
  fun s => (inr (Date_now (reads s) / 1000)%Z,
            {| ui := ui s; reads := S (reads s); pubs := pubs s;
               trace := trace s ++ [CDateNow] |}).

(** [pool.publish([relay], ev)], with the call counted. *)
Definition publish_one (ev : Event.t) (relay : string)
    : M (list (Settled string)) :=
  fun s => (inr (pool_publish (pubs s) [relay] ev),
            {| ui := ui s; reads := reads s; pubs := S (pubs s);
               trace := trace s ++ [CPublish [relay] ev] |}).

(** [relays.map(relay => pool.publish([relay], ev))] *)
Fixpoint publish_all (ev : Event.t) (rs : list string)
    : M (list (list (Settled string))) :=
  match rs with
  | [] => ret []
  | r :: rest =>
      p <- publish_one ev r ;;
      ps <- publish_all ev rest ;;
      ret (p :: ps)
  end.

(** The callback of [fetchedEvents.map], lines 104 to 115. *)
Definition clone_one (newPubkey : string) (secretKey : SecretKey)
    (total : nat) (event : Event.t) (index : nat) : M Event.t :=
  setStatus ("Cloning event " ++ show (index + 1) ++ "/" ++ show total
             ++ "...") ;;
  created <- now_seconds ;;
  let newEvent := {| Event.id := "";
                     Event.pubkey := newPubkey;
                     Event.created_at := created;
                     Event.kind := Event.kind event;
                     Event.tags := Event.tags event;
                     Event.content := Event.content event;
                     Event.sig := "" |} in
  call (CFinalizeEvent newEvent secretKey) ;;
  lift (finalizeEvent newEvent secretKey).

(** [fetchedEvents.map(callback)], from index [index] on. *)
Fixpoint clone_from (newPubkey : string) (secretKey : SecretKey)
    (total : nat) (evs : list Event.t) (index : nat) : M (list Event.t) :=
  match evs with
  | [] => ret []
  | event :: rest =>
      c <- clone_one newPubkey secretKey total event index ;;
      cs <- clone_from newPubkey secretKey total rest (S index) ;;
      ret (c :: cs)
  end.

(** One turn of the publishing loop, lines 120 to 131.  What [Promise.any]
    is given is the array of the arrays that [pool.publish] returned: its
    elements are arrays of promises, not promises, and the promises inside
    them are awaited by nothing. *)
Definition publish_step (rs : list string) (total : nat)
    (ev : Event.t) (i : nat) : M unit :=
  setStatus ("Publishing event " ++ show (i + 1) ++ "/" ++ show total
             ++ "...") ;;
  try_catch
    (ps <- publish_all ev rs ;;
     _ <- await (Promise_any (map Promise_resolve ps)) ;;
     call (CSetTimeout 50))
    (fun err =>
       call (CConsoleWarn ("Failed to publish event " ++ show (i + 1)
                           ++ ", continuing...") err)).

(** [for (let i = 0; i < clonedEvents.length; i++)], from index [i] on. *)
Fixpoint publish_from (rs : list string) (total : nat)
    (evs : list Event.t) (i : nat) : M unit :=
  match evs with
  | [] => ret tt
  | ev :: rest =>
      publish_step rs total ev i ;;
      publish_from rs total rest (S i)
  end.

(** The [if (nsec) { ... }] block, lines 89 to 136. *)
Definition clone_and_publish (u : UI) (fetchedEvents : list Event.t)
    : M unit :=
  if truthy (nsec u) then
    if negb (startsWith (nsec u) "nsec1") then
      throw (JsError "Invalid nsec format. Must start with nsec1")
    else
      call (CDecode (nsec u)) ;;
      decodedNsec <- lift (nip19_decode (nsec u)) ;;
      match decodedNsec with
      | Dnsec secretKey =>
          call (CGetPublicKey secretKey) ;;
          newPubkey <- lift (getPublicKey secretKey) ;;
          setStatus "Cloning events..." ;;
          clonedEvents <- clone_from newPubkey secretKey
                            (length fetchedEvents) fetchedEvents 0 ;;
          setStatus "Publishing events..." ;;
          publish_from (relays u) (length clonedEvents) clonedEvents 0 ;;
          setEvents clonedEvents ;;
          setStatus "Complete!"
      | _ => throw (JsError "Invalid nsec")
      end
  else ret tt.

(** The body of the [try], lines 65 to 136. *)
Definition try_body (u : UI) : M unit :=
  if negb (startsWith (npub u) "npub1") then
    throw (JsError "Invalid npub format. Must start with npub1")
  else
    call (CDecode (npub u)) ;;
    decoded <- lift (nip19_decode (npub u)) ;;
    match decoded with
    | Dnpub pubkeyHex =>
        setStatus "Fetching events..." ;;
        let filter := {| kinds := [1%Z]; authors := [pubkeyHex];
                         limit := 50%Z |} in
        call (CQuerySync (relays u) filter) ;;
        fetchedEvents <- lift (pool_querySync (relays u) filter) ;;
        if Nat.eqb (length fetchedEvents) 0 then
          throw (JsError "No events found for this pubkey")
        else
          setStatus ("Found " ++ show (length fetchedEvents)
                     ++ " events to clone...") ;;
          clone_and_publish u fetchedEvents
    | _ => throw (JsError "Invalid npub")
    end.

(** [handleCloneEvents], lines 58 to 144.  The values of [npub], [nsec]
    and [relays] are those of the render in which the handler was created. *)
Definition handleCloneEvents : M unit :=
  u <- get_ui ;;
  setIsLoading true ;;
  setError None ;;
  try_catch_finally
    (try_body u)
    (fun error =>
       call (CConsoleError "Error fetching/cloning events:" error) ;;
       setError (Some (message_of error)))
    (setIsLoading false ;; setIsModalOpen false).

(** The state in which the handler starts: the component state as it is,
    nothing read or called yet. *)
Definition start (u : UI) : State :=
  {| ui := u; reads := 0; pubs := 0; trace := [] |}.

(** The state in which the handler leaves the component. *)
Definition final (u : UI) : State := snd (handleCloneEvents (start u)).


(** *** What the two loops do, written out

    The functions below describe the loops from the outside: the events
    the first one builds, the calls each makes and the status each leaves.
    The lemmas after them prove that the loops do exactly that. *)

Definition cloning_status (index total : nat) : string :=
  "Cloning event " ++ show (index + 1) ++ "/" ++ show total ++ "...".

Definition publishing_status (i total : nat) : string :=
  "Publishing event " ++ show (i + 1) ++ "/" ++ show total ++ "...".

Definition publish_warning (i : nat) : string :=
  "Failed to publish event " ++ show (i + 1) ++ ", continuing...".

(** The object literal of lines 106 to 112, built at the [r]-th reading of
    the clock. *)
Definition template (pk : string) (r : nat) (ev : Event.t) : Event.t :=
  {| Event.id := "";
     Event.pubkey := pk;
     Event.created_at := (Date_now r / 1000)%Z;
     Event.kind := Event.kind ev;
     Event.tags := Event.tags ev;
     Event.content := Event.content ev;
     Event.sig := "" |}.

(** The value of the [map]: every template signed, or the first error. *)
Fixpoint sign_all (pk : string) (sk : SecretKey) (r : nat)
    (evs : list Event.t) : Thrown + list Event.t :=
  match evs with
  | [] => inr []
  | ev :: rest =>
      match finalizeEvent (template pk r ev) sk with
      | inl e => inl e
      | inr c =>
          match sign_all pk sk (S r) rest with
          | inl e => inl e
          | inr cs => inr (c :: cs)
          end
      end
  end.

Fixpoint clone_calls (pk : string) (sk : SecretKey) (r : nat)
    (evs : list Event.t) : list Call :=
  match evs with
  | [] => []
  | ev :: rest =>
      CDateNow :: CFinalizeEvent (template pk r ev) sk
        :: clone_calls pk sk (S r) rest
  end.

Fixpoint clone_ui (total : nat) (evs : list Event.t) (index : nat)
    (u : UI) : UI :=
  match evs with
  | [] => u
  | _ :: rest =>
      clone_ui total rest (S index) (with_status (cloning_status index total) u)
  end.

(** The arrays of promises that the publish calls of one event return, [k]
    publish calls having been made before. *)
Fixpoint outcomes (k : nat) (ev : Event.t) (rs : list string)
    : list (list (Settled string)) :=
  match rs with
  | [] => []
  | r :: rest => pool_publish k [r] ev :: outcomes (S k) ev rest
  end.

(** Whether the awaited [Promise.any] of one event fulfils. *)
Definition published (k : nat) (ev : Event.t) (rs : list string) : bool :=
  is_fulfilled (Promise_any (map Promise_resolve (outcomes k ev rs))).

Definition step_calls (k : nat) (rs : list string) (ev : Event.t) (i : nat)
    : list Call :=
  map (fun r => CPublish [r] ev) rs ++
  match Promise_any (map Promise_resolve (outcomes k ev rs)) with
  | Fulfilled _ => [CSetTimeout 50]
  | Rejected err => [CConsoleWarn (publish_warning i) err]
  end.

Fixpoint publish_calls (k : nat) (rs : list string) (evs : list Event.t)
    (i : nat) : list Call :=
  match evs with
  | [] => []
  | ev :: rest =>
      step_calls k rs ev i ++ publish_calls (k + length rs) rs rest (S i)
  end.

Fixpoint publish_ui (total : nat) (evs : list Event.t) (i : nat)
    (u : UI) : UI :=
  match evs with
  | [] => u
  | _ :: rest =>
      publish_ui total rest (S i) (with_status (publishing_status i total) u)
  end.

End Pipeline.

(** ** A small concrete world

    One decoder, pool, signer and clock on which the handler can be run; the
    general statements are tried on it. *)

Module Demo.

Definition nip19_decode (s : string) : Thrown + DecodeResult :=
  if String.eqb s "npub1alice" then inr (Dnpub "a11ce")
  else if String.eqb s "npub1nobody" then inr (Dnpub "0b0d1")
  else if String.eqb s "npub1odd" then inr (Dnote "0dd")
  else if String.eqb s "nsec1bob" then inr (Dnsec [Byte.x07])
  else if String.eqb s "nsec1odd" then inr (Dnote "0dd")
  else inl (JsError "Unknown prefix").

Definition note (n : Z) (body : string) : Event.t :=
  {| Event.id := ("id-" ++ body)%string;
     Event.pubkey := "a11ce";
     Event.created_at := n;
     Event.kind := 1;
     Event.tags := [["t"; "demo"]];
     Event.content := body;
     Event.sig := ("sig-" ++ body)%string |}.

Definition fetched : list Event.t :=
  [note 1600000000 "gm"; note 1600000100 "pv"].

Definition pool_querySync (rs : list string) (f : Filter)
    : Thrown + list Event.t :=
  match authors f with
  | [a] => if String.eqb a "a11ce" then inr fetched else inr []
  | _ => inr []
  end.

Definition getPublicKey (sk : SecretKey) : Thrown + string := inr "b0b".

Definition getEventHash (e : UnsignedEvent) : string :=
  ("hash(" ++ u_pubkey e ++ "," ++ u_content e ++ ")")%string.

Definition schnorr_sign (m : string) (sk : SecretKey) : Thrown + string :=
  inr ("signed(" ++ m ++ ")")%string.

(** The clock starts at 1700000000.4 s and each reading comes 700 ms after
    the one before. *)
Definition Date_now (n : nat) : Z := 1700000000400 + 700 * Z.of_nat n.

(** Every relay takes every event. *)
Definition accept_all (k : nat) (rs : list string) (ev : Event.t)
    : list (Settled string) := map (fun _ => Fulfilled "ok") rs.

(** The relays turn down the first two publish calls and take the rest. *)
Definition reject_first_two (k : nat) (rs : list string) (ev : Event.t)
    : list (Settled string) :=
  map (fun _ => if Nat.ltb k 2 then Rejected (JsValue "rate-limited")
                else Fulfilled "ok") rs.

(** No relay takes anything. *)
Definition refuse_all (k : nat) (rs : list string) (ev : Event.t)
    : list (Settled string) := map (fun _ => Rejected (JsValue "blocked")) rs.

(** A relay takes an event when it is [wss://good] and refuses it
    otherwise. *)
Definition by_relay (k : nat) (rs : list string) (ev : Event.t)
    : list (Settled string) :=
  map (fun r => if String.eqb r "wss://good" then Fulfilled "ok"
                else Rejected (JsValue "connection failed")) rs.

(** The event shown by an earlier, successful run. *)
Definition earlier : Event.t :=
  {| Event.id := "id-old"; Event.pubkey := "b0b"; Event.created_at := 1500000000;
     Event.kind := 1; Event.tags := []; Event.content := "old";
     Event.sig := "sig-old" |}.

(** The component with the dialog open, as the handler finds it. *)
Definition component (pub sec : string) (rs : list string) : UI :=
  {| npub := pub; relays := rs; events := [earlier]; isModalOpen := true;
     nsec := sec; isLoading := false; error := None; status := "" |}.

Definition two_relays : list string := ["wss://bad"; "wss://good"].

(** The handler run to its end in this world. *)
Definition run
    (publish : nat -> list string -> Event.t -> list (Settled string))
    (u : UI) : State :=
  final nip19_decode pool_querySync getPublicKey getEventHash schnorr_sign
        Date_now publish u.

End Demo.

(** ** The rest of the component

    The other handlers of [App] each call one setter; they are written as
    functions on the component state.  The render is kept as the data it
    shows and the controls it offers. *)

Definition with_npub (v : string) (u : UI) : UI :=
  {| npub := v; relays := relays u; events := events u;
     isModalOpen := isModalOpen u; nsec := nsec u; isLoading := isLoading u;
     error := error u; status := status u |}.

Definition with_relays (v : list string) (u : UI) : UI :=
  {| npub := npub u; relays := v; events := events u;
     isModalOpen := isModalOpen u; nsec := nsec u; isLoading := isLoading u;
     error := error u; status := status u |}.

Definition with_nsec (v : string) (u : UI) : UI :=
  {| npub := npub u; relays := relays u; events := events u;
     isModalOpen := isModalOpen u; nsec := v; isLoading := isLoading u;
     error := error u; status := status u |}.

(** The [useState] calls of lines 30 to 37. *)
Definition App_initial : UI :=
  {| npub := ""; relays := ["wss://relay.damus.io"]; events := [];
     isModalOpen := false; nsec := ""; isLoading := false; error := None;
     status := "" |}.

(** [addRelayInput], lines 39 to 41: [setRelays([...relays, ''])]. *)
Definition addRelayInput (u : UI) : UI := with_relays (relays u ++ [""]) u.

(** [l.filter((x, i) => keep(x, i))], the first element having index [i]. *)
Fixpoint filter_indexed {A} (keep : A -> nat -> bool) (l : list A) (i : nat)
    : list A :=
  match l with
  | [] => []
  | x :: rest =>
      if keep x i then x :: filter_indexed keep rest (S i)
      else filter_indexed keep rest (S i)
  end.

(** [removeRelayInput], lines 43 to 46:
    [relays.filter((_, i) => i !== index)]. *)
Definition removeRelayInput (index : nat) (u : UI) : UI :=
  with_relays
    (filter_indexed (fun _ i => negb (Nat.eqb i index)) (relays u) 0) u.

(** [const a = [...l]; a[index] = value]: the array after the write.  A write
    inside the array replaces one element; a write at or past the end makes
    the array [index + 1] long, and the places in between are holes. *)
Definition array_write (l : list string) (index : nat) (value : string)
    : list (option string) :=
  if Nat.ltb index (length l) then
    map Some (firstn index l) ++ Some value :: map Some (skipn (S index) l)
  else
    map Some l ++ repeat None (index - length l) ++ [Some value].

(** An array without holes is a list of strings. *)
Fixpoint dense (a : list (option string)) : option (list string) :=
  match a with
  | [] => Some []
  | Some x :: rest =>
      match dense rest with
      | Some l => Some (x :: l)
      | None => None
      end
  | None :: _ => None
  end.

(** [updateRelay], lines 48 to 52.  The component state holds strings only:
    there is no next state when the write leaves holes in the array. *)
Definition updateRelay (index : nat) (value : string) (u : UI) : option UI :=
  match dense (array_write (relays u) index value) with
  | Some rs => Some (with_relays rs u)
  | None => None
  end.

(** [handleDrawSword], lines 54 to 56. *)
Definition handleDrawSword (u : UI) : UI := with_isModalOpen true u.

(** *** The render, lines 146 to 286 *)

(** One row of the relay card: the React key, the text in the input and
    whether the remove button is there. *)
Record RelayRow : Type := mkRow {
  row_key : nat;
  row_value : string;
  row_remove : bool
}.

(** One cloned event on the page: the React key, the number after [#], the
    argument of [new Date] and the text. *)
Record Card : Type := mkCard {
  card_key : string;
  card_number : nat;
  card_date : Z;
  card_content : string
}.

(** The block under the button: the status line, the error line and the
    cards. *)
Record Results : Type := mkResults {
  res_status : option string;
  res_error : option string;
  res_cards : list Card
}.

Record View : Type := mkView {
  view_npub : string;
  view_rows : list RelayRow;
  view_dialog_open : bool;
  view_nsec : string;
  view_button_disabled : bool;
  view_button_label : string;
  view_results : option Results
}.

(** [relays.map((relay, index) => ...)], lines 181 to 200. *)
Fixpoint relay_rows (total : nat) (rs : list string) (index : nat)
    : list RelayRow :=
  match rs with
  | [] => []
  | relay :: rest =>
      {| row_key := index; row_value := relay;
         row_remove := Nat.ltb 1 total |}
        :: relay_rows total rest (S index)
  end.

(** [events.map((event, index) => ...)], lines 265 to 278. *)
Fixpoint cards (evs : list Event.t) (index : nat) : list Card :=
  match evs with
  | [] => []
  | event :: rest =>
      {| card_key := Event.id event;
         card_number := index + 1;
         card_date := (Event.created_at event * 1000)%Z;
         card_content := Event.content event |}
        :: cards rest (S index)
  end.

(** [{x && (...)}] for a string or null [x]. *)
Definition shown (x : option string) : option string :=
  match x with
  | Some s => if truthy s then Some s else None
  | None => None
  end.

Definition render (u : UI) : View :=
  {| view_npub := npub u;
     view_rows := relay_rows (length (relays u)) (relays u) 0;
     view_dialog_open := isModalOpen u;
     view_nsec := nsec u;
     view_button_disabled := isLoading u;
     view_button_label :=
       if isLoading u then "Cloning Events..." else "Clone Events";
     view_results :=
       if Nat.ltb 0 (length (events u)) then
         Some {| res_status := shown (Some (status u));
                 res_error := shown (error u);
                 res_cards := cards (events u) 0 |}
       else None |}.

(** *** What the user can do on the page

    The handlers that run to their end within one event: typing, the add
    and remove buttons, the dialog.  The clone button starts
    [handleCloneEvents], which goes on over several awaits; it is not one of
    these steps. *)

(** The events that the rendered page reacts to at once. *)
Inductive Action : Type :=
| TypeNpub (v : string)
| ClickAdd
| TypeRelay (index : nat) (v : string)
| ClickRemove (index : nat)
| ClickDraw
| OpenChange (open : bool)
| TypeNsec (v : string).

(** The row with a given key, if the page has it. *)
Definition row_at (v : View) (index : nat) : option RelayRow :=
  find (fun r => Nat.eqb (row_key r) index) (view_rows v).

(** The state after an action, when the page shown for [u] offers it: a
    relay can be edited on a row that is there and removed with a button
    that is there. *)
Definition act (a : Action) (u : UI) : option UI :=
  match a with
  | TypeNpub v => Some (with_npub v u)
  | ClickAdd => Some (addRelayInput u)
  | TypeRelay index v =>
      match row_at (render u) index with
      | Some _ => updateRelay index v u
      | None => None
      end
  | ClickRemove index =>
      match row_at (render u) index with
      | Some r => if row_remove r then Some (removeRelayInput index u)
                  else None
      | None => None
      end
  | ClickDraw => Some (handleDrawSword u)
  | OpenChange open => Some (with_isModalOpen open u)
  | TypeNsec v => Some (with_nsec v u)
  end.

(** A session: the actions one after the other, from one state. *)
Fixpoint session (acts : list Action) (u : UI) : option UI :=
  match acts with
  | [] => Some u
  | a :: rest =>
      match act a u with
      | Some u' => session rest u'
      | None => None
      end
  end.

(** What the handler never touches: the three inputs it reads. *)
Definition same_inputs (u u' : UI) : Prop :=
  npub u' = npub u /\ relays u' = relays u /\ nsec u' = nsec u.

Definition is_error_log (c : Call) : bool :=
  match c with CConsoleError _ _ => true | _ => false end.

(** *** A world in which things go wrong *)

Module Faulty.

(** The pool cannot reach any relay for the query. *)
Definition querySync_down (rs : list string) (f : Filter)
    : Thrown + list Event.t := inl (JsValue "offline").

(** The key is refused by the curve library. *)
Definition getPublicKey_refuses (sk : SecretKey) : Thrown + string :=
  inl (JsError "invalid private key").

(** The signer fails on the second of the two notes. *)
Definition sign_fails_on_second (m : string) (sk : SecretKey)
    : Thrown + string :=
  if String.eqb m "hash(b0b,pv)" then inl (JsError "signing failed")
  else inr ("signed(" ++ m ++ ")")%string.

(** A session on the page: a second relay is added and filled in, the first
    one is removed, the keys are typed. *)
Definition clicks : list Action :=
  [ClickAdd; TypeRelay 1 "wss://good"; ClickRemove 0;
   TypeNpub "npub1alice"; ClickDraw; TypeNsec "nsec1bob"].

End Faulty.

(** ** Properties *)

(** *** The monad and the promises *)

Lemma Promise_any_fulfilled {A} (ps : list (Settled A)) :
  is_fulfilled (Promise_any ps) = existsb is_fulfilled ps.
Proof.
  unfold Promise_any.
  induction ps as [|p ps IH]; simpl; [reflexivity|].
  destruct p as [v|e]; simpl; [reflexivity|].
  destruct (find is_fulfilled ps) as [q|]; simpl in *; exact IH.
Qed.

Lemma Promise_any_rejected {A} (ps : list (Settled A)) (e : Thrown) :
  Promise_any ps = Rejected e ->
  e = AggregateError all_rejected (reasons ps).
Proof.
  unfold Promise_any.
  destruct (find is_fulfilled ps) as [q|] eqn:Hf.
  - apply find_some in Hf as [_ Hq]. intros ->. discriminate.
  - intros H. inversion H. reflexivity.
Qed.

(** [Promise.any] of values that are not promises fulfils with the first of
    them; it rejects only when there is none. *)
Lemma Promise_any_resolved {A} (l : list A) :
  Promise_any (map Promise_resolve l) =
    match l with
    | [] => Rejected (AggregateError all_rejected [])
    | x :: _ => Fulfilled x
    end.
Proof. destruct l; reflexivity. Qed.

Lemma only_app (p : Call -> bool) (a b : list Call) :
  only p (a ++ b) = only p a ++ only p b.
Proof. apply filter_app. Qed.

Section Properties.

Variable nip19_decode : string -> Thrown + DecodeResult.
Variable pool_querySync : list string -> Filter -> Thrown + list Event.t.
Variable getPublicKey : SecretKey -> Thrown + string.
Variable getEventHash : UnsignedEvent -> string.
Variable schnorr_sign : string -> SecretKey -> Thrown + string.
Variable Date_now : nat -> Z.
Variable pool_publish : nat -> list string -> Event.t -> list (Settled string).

Local Abbreviation finalizeEvent := (finalizeEvent getEventHash schnorr_sign).
Local Abbreviation publish_one := (publish_one pool_publish).
Local Abbreviation publish_all := (publish_all pool_publish).
Local Abbreviation clone_one := (clone_one getEventHash schnorr_sign Date_now).
Local Abbreviation clone_from := (clone_from getEventHash schnorr_sign Date_now).
Local Abbreviation publish_step := (publish_step pool_publish).
Local Abbreviation publish_from := (publish_from pool_publish).
Local Abbreviation clone_and_publish :=
  (clone_and_publish nip19_decode getPublicKey getEventHash schnorr_sign
                     Date_now pool_publish).
Local Abbreviation try_body :=
  (try_body nip19_decode pool_querySync getPublicKey getEventHash
            schnorr_sign Date_now pool_publish).
Local Abbreviation handleCloneEvents :=
  (handleCloneEvents nip19_decode pool_querySync getPublicKey getEventHash
                     schnorr_sign Date_now pool_publish).
Local Abbreviation final :=
  (final nip19_decode pool_querySync getPublicKey getEventHash schnorr_sign
         Date_now pool_publish).
Local Abbreviation template := (template Date_now).
Local Abbreviation sign_all := (sign_all getEventHash schnorr_sign Date_now).
Local Abbreviation clone_calls := (clone_calls Date_now).
Local Abbreviation outcomes := (outcomes pool_publish).
Local Abbreviation published := (published pool_publish).
Local Abbreviation step_calls := (step_calls pool_publish).
Local Abbreviation publish_calls := (publish_calls pool_publish).

(** *** The publishing loop *)

Lemma publish_all_spec (ev : Event.t) (rs : list string) (s : State) :
  publish_all ev rs s =
    (inr (outcomes (pubs s) ev rs),
     {| ui := ui s; reads := reads s; pubs := pubs s + length rs;
        trace := trace s ++ map (fun r => CPublish [r] ev) rs |}).
Proof.
  revert s. induction rs as [|r rs IH]; intros s.
  - simpl. unfold ret. rewrite Nat.add_0_r, app_nil_r.
    destruct s; reflexivity.
  - simpl. unfold bind, publish_one. rewrite IH. simpl. unfold ret.
    rewrite <- app_assoc. simpl. rewrite Nat.add_succ_r. reflexivity.
Qed.

Lemma publish_step_spec (rs : list string) (total : nat) (ev : Event.t)
    (i : nat) (s : State) :
  publish_step rs total ev i s =
    (inr tt,
     {| ui := with_status (publishing_status i total) (ui s);
        reads := reads s; pubs := pubs s + length rs;
        trace := trace s ++ step_calls (pubs s) rs ev i |}).
Proof.
  unfold publish_step, bind, try_catch, setStatus, modify_ui. simpl.
  rewrite publish_all_spec. simpl. unfold step_calls.
  destruct (Promise_any (map Promise_resolve (outcomes (pubs s) ev rs)))
    as [v|e]; simpl;
    unfold call; simpl; rewrite <- app_assoc; reflexivity.
Qed.

Lemma publish_from_spec (rs : list string) (total : nat)
    (evs : list Event.t) (i : nat) (s : State) :
  publish_from rs total evs i s =
    (inr tt,
     {| ui := publish_ui total evs i (ui s);
        reads := reads s; pubs := pubs s + length evs * length rs;
        trace := trace s ++ publish_calls (pubs s) rs evs i |}).
Proof.
  revert i s. induction evs as [|ev evs IH]; intros i s.
  - simpl. unfold ret. rewrite Nat.add_0_r, app_nil_r.
    destruct s; reflexivity.
  - simpl. unfold bind. rewrite publish_step_spec, IH. simpl.
    rewrite <- app_assoc, <- Nat.add_assoc. reflexivity.
Qed.

(** *** The cloning loop *)

(** The loop returns what [sign_all] computes, and when every signature
    succeeds it reads the clock once per event and calls [finalizeEvent] on
    one template per event. *)
Lemma clone_from_ok (pk : string) (sk : SecretKey) (total : nat)
    (evs : list Event.t) (i : nat) (s : State) (cs : list Event.t) :
  sign_all pk sk (reads s) evs = inr cs ->
  clone_from pk sk total evs i s =
    (inr cs,
     {| ui := clone_ui total evs i (ui s);
        reads := reads s + length evs; pubs := pubs s;
        trace := trace s ++ clone_calls pk sk (reads s) evs |}).
Proof.
  revert i s cs. induction evs as [|ev evs IH]; intros i s cs H.
  - simpl in *. inversion H. unfold ret.
    rewrite Nat.add_0_r, app_nil_r. destruct s; reflexivity.
  - simpl in H.
    destruct (finalizeEvent (template pk (reads s) ev) sk) as [e|c] eqn:Hf;
      [discriminate|].
    destruct (sign_all pk sk (S (reads s)) evs) as [e|cs'] eqn:Hs;
      [discriminate|].
    inversion H; subst cs. clear H.
    simpl. unfold bind at 1. unfold clone_one, bind, setStatus, modify_ui,
      now_seconds, call, lift. simpl.
    fold (template pk (reads s) ev). rewrite Hf.
    rewrite (IH _ _ cs') by exact Hs. simpl. unfold ret.
    rewrite <- !app_assoc. simpl.
    rewrite (Nat.add_succ_r (reads s)). reflexivity.
Qed.

Lemma sign_all_length (pk : string) (sk : SecretKey) (r : nat)
    (evs cs : list Event.t) :
  sign_all pk sk r evs = inr cs -> length cs = length evs.
Proof.
  revert r cs. induction evs as [|ev evs IH]; intros r cs H; simpl in H.
  - inversion H. reflexivity.
  - destruct (finalizeEvent (template pk r ev) sk) as [e|c]; [discriminate|].
    destruct (sign_all pk sk (S r) evs) as [e|cs'] eqn:Hs; [discriminate|].
    inversion H. simpl. f_equal. eapply IH, Hs.
Qed.

Lemma sign_all_nth (pk : string) (sk : SecretKey) (r : nat)
    (evs cs : list Event.t) (j : nat) (ev : Event.t) :
  sign_all pk sk r evs = inr cs ->
  nth_error evs j = Some ev ->
  exists c, nth_error cs j = Some c /\
            finalizeEvent (template pk (r + j) ev) sk = inr c.
Proof.
  revert r cs j. induction evs as [|e0 evs IH]; intros r cs j H Hj.
  - destruct j; discriminate.
  - simpl in H.
    destruct (finalizeEvent (template pk r e0) sk) as [e|c] eqn:Hf;
      [discriminate|].
    destruct (sign_all pk sk (S r) evs) as [e|cs'] eqn:Hs; [discriminate|].
    inversion H; subst cs. destruct j as [|j]; simpl in Hj.
    + inversion Hj; subst e0. exists c. rewrite Nat.add_0_r. auto.
    + destruct (IH _ _ _ Hs Hj) as [c' [Hc Hf']]. exists c'.
      rewrite Nat.add_succ_r. auto.
Qed.

(** A key with which every message can be signed signs every template. *)
Lemma sign_all_total (pk : string) (sk : SecretKey) (r : nat)
    (evs : list Event.t) :
  (forall m, exists sg, schnorr_sign m sk = inr sg) ->
  exists cs, sign_all pk sk r evs = inr cs.
Proof.
  intros Hsk. revert r. induction evs as [|ev evs IH]; intros r; simpl.
  - eauto.
  - unfold finalizeEvent.
    destruct (Hsk (getEventHash (unsigned (template pk r ev)))) as [sg ->].
    destruct (IH (S r)) as [cs ->]. eauto.
Qed.

Lemma finalizeEvent_fields (t c : Event.t) (sk : SecretKey) :
  finalizeEvent t sk = inr c ->
  Event.id c = getEventHash (unsigned t) /\
  schnorr_sign (Event.id c) sk = inr (Event.sig c) /\
  Event.pubkey c = Event.pubkey t /\
  Event.created_at c = Event.created_at t /\
  Event.kind c = Event.kind t /\
  Event.tags c = Event.tags t /\
  Event.content c = Event.content t.
Proof.
  unfold finalizeEvent.
  destruct (schnorr_sign (getEventHash (unsigned t)) sk) as [e|sg] eqn:Hs;
    [discriminate|].
  intros H. inversion H. simpl. rewrite Hs. repeat split; reflexivity.
Qed.

Lemma keeps_refl (s : State) : keeps s s.
Proof. repeat split. Qed.

Lemma keeps_trans (a b c : State) : keeps a b -> keeps b c -> keeps a c.
Proof.
  intros (H1 & H2 & H3) (K1 & K2 & K3).
  repeat split; etransitivity; eassumption.
Qed.

Lemma clone_from_keeps (pk : string) (sk : SecretKey) (total : nat)
    (evs : list Event.t) (i : nat) (s : State) :
  keeps s (snd (clone_from pk sk total evs i s)).
Proof.
  revert i s. induction evs as [|ev evs IH]; intros i s.
  - apply keeps_refl.
  - simpl. unfold bind at 1. unfold clone_one, bind, setStatus, modify_ui,
      now_seconds, call, lift. simpl.
    match goal with
    | |- context [finalizeEvent ?t sk] =>
        destruct (finalizeEvent t sk) as [e|c]
    end.
    + simpl. repeat split; simpl. rewrite <- app_assoc, only_app. simpl.
      now rewrite app_nil_r.
    + match goal with
      | |- context [clone_from pk sk total evs (S i) ?s1] =>
          specialize (IH (S i) s1);
          destruct (clone_from pk sk total evs (S i) s1) as [[e|cs] s2]
      end; simpl in *; (eapply keeps_trans; [|exact IH]);
        repeat split; simpl; rewrite <- app_assoc, only_app; simpl;
        now rewrite app_nil_r.
Qed.

(** *** The handler, path by path *)

Ltac run_handler :=
  unfold final, handleCloneEvents, start,
    try_catch_finally, try_body, bind, get_ui, setIsLoading,
    setError, setStatus, setIsModalOpen, modify_ui, call, lift, throw, ret;
  simpl.

(** C7, as amended.  A source key that does not start with [npub1] fails
    with the InvalidFormat message, whatever it would decode to; a source key
    that starts with [npub1] and decodes to another category fails with the
    WrongKeyType message.  Either way the run is over: the error is logged,
    no relay is queried and nothing is published. *)
Theorem C7_source_key_rejected (u : UI) :
  (startsWith (npub u) "npub1" = false ->
     error (ui (final u)) = Some InvalidFormat_npub /\
     events (ui (final u)) = events u /\
     only is_query (trace (final u)) = [] /\
     only is_publish (trace (final u)) = [] /\
     trace (final u) =
       [CConsoleError "Error fetching/cloning events:"
                      (JsError InvalidFormat_npub)]) /\
  (forall d,
     startsWith (npub u) "npub1" = true ->
     nip19_decode (npub u) = inr d ->
     type_of d <> "npub" ->
     error (ui (final u)) = Some WrongKeyType_npub /\
     events (ui (final u)) = events u /\
     only is_query (trace (final u)) = [] /\
     only is_publish (trace (final u)) = [] /\
     trace (final u) =
       [CDecode (npub u);
        CConsoleError "Error fetching/cloning events:"
                      (JsError WrongKeyType_npub)]).
Proof.
  split.
  - intros H. run_handler. rewrite H. simpl. repeat split.
  - intros d H Hd Ht. run_handler. rewrite H. simpl. rewrite Hd.
    destruct d; simpl; try (now elim Ht); repeat split.
Qed.

(** C4.  When the query comes back empty the run fails with the
    NoEventsFound message right after the query: the clock is not read, no
    template is built or signed, no public key is derived and nothing is
    published; the shown events stay as they were. *)
Theorem C4_empty_query_fails (u : UI) (pubkeyHex : string) :
  startsWith (npub u) "npub1" = true ->
  nip19_decode (npub u) = inr (Dnpub pubkeyHex) ->
  pool_querySync (relays u) (notes_of pubkeyHex) = inr [] ->
  error (ui (final u)) = Some NoEventsFound /\
  isLoading (ui (final u)) = false /\
  events (ui (final u)) = events u /\
  only is_finalize (trace (final u)) = [] /\
  only is_clock (trace (final u)) = [] /\
  only is_publish (trace (final u)) = [] /\
  trace (final u) =
    [CDecode (npub u);
     CQuerySync (relays u) (notes_of pubkeyHex);
     CConsoleError "Error fetching/cloning events:" (JsError NoEventsFound)].
Proof.
  intros Hp Hd Hq. run_handler. rewrite Hp. simpl. rewrite Hd.
  unfold notes_of in Hq. rewrite Hq. simpl. repeat split.
Qed.

(** C6.  With the destination key left empty and a query that found
    something, the run stops after the query without an error: no key is
    decoded or derived, no event is built, nothing is published, and the
    shown events stay as they were. *)
Theorem C6_no_destination_key_is_a_no_op (u : UI) (pubkeyHex : string)
    (fetched : list Event.t) :
  startsWith (npub u) "npub1" = true ->
  nip19_decode (npub u) = inr (Dnpub pubkeyHex) ->
  pool_querySync (relays u) (notes_of pubkeyHex) = inr fetched ->
  fetched <> [] ->
  nsec u = "" ->
  error (ui (final u)) = None /\
  events (ui (final u)) = events u /\
  status (ui (final u)) =
    ("Found " ++ show (length fetched) ++ " events to clone...")%string /\
  only is_finalize (trace (final u)) = [] /\
  only is_publish (trace (final u)) = [] /\
  trace (final u) =
    [CDecode (npub u); CQuerySync (relays u) (notes_of pubkeyHex)].
Proof.
  intros Hp Hd Hq Hne Hs. run_handler. rewrite Hp. simpl. rewrite Hd.
  unfold notes_of in Hq. rewrite Hq.
  destruct fetched as [|ev rest]; [contradiction|]. simpl.
  unfold clone_and_publish. rewrite Hs. simpl. repeat split.
Qed.

(** C3, as amended.  A destination key that is given but malformed is found
    out after the query, not before it: with a valid source key and a query
    that found something, the relays have been queried once when the run
    fails with the InvalidFormat message (wrong prefix) or the WrongKeyType
    message (another category).  It fails before the transformation: the
    clock is not read, nothing is signed, nothing is published, and the shown
    events stay as they were. *)
Theorem C3_bad_destination_key_fails_after_query (u : UI)
    (pubkeyHex : string) (fetched : list Event.t) :
  startsWith (npub u) "npub1" = true ->
  nip19_decode (npub u) = inr (Dnpub pubkeyHex) ->
  pool_querySync (relays u) (notes_of pubkeyHex) = inr fetched ->
  fetched <> [] ->
  truthy (nsec u) = true ->
  (startsWith (nsec u) "nsec1" = false ->
     error (ui (final u)) = Some InvalidFormat_nsec /\
     events (ui (final u)) = events u /\
     only is_clock (trace (final u)) = [] /\
     only is_finalize (trace (final u)) = [] /\
     only is_publish (trace (final u)) = [] /\
     trace (final u) =
       [CDecode (npub u); CQuerySync (relays u) (notes_of pubkeyHex);
        CConsoleError "Error fetching/cloning events:"
                      (JsError InvalidFormat_nsec)]) /\
  (forall d,
     startsWith (nsec u) "nsec1" = true ->
     nip19_decode (nsec u) = inr d ->
     type_of d <> "nsec" ->
     error (ui (final u)) = Some WrongKeyType_nsec /\
     events (ui (final u)) = events u /\
     only is_clock (trace (final u)) = [] /\
     only is_finalize (trace (final u)) = [] /\
     only is_publish (trace (final u)) = [] /\
     trace (final u) =
       [CDecode (npub u); CQuerySync (relays u) (notes_of pubkeyHex);
        CDecode (nsec u);
        CConsoleError "Error fetching/cloning events:"
                      (JsError WrongKeyType_nsec)]).
Proof.
  intros Hp Hd Hq Hne Ht.
  destruct fetched as [|ev rest]; [contradiction|].
  unfold notes_of in Hq.
  split.
  - intros Hs. run_handler. rewrite Hp. simpl. rewrite Hd, Hq. simpl.
    unfold clone_and_publish. rewrite Ht, Hs. simpl.
    repeat split.
  - intros d Hs Hn Hty. run_handler. rewrite Hp. simpl. rewrite Hd, Hq. simpl.
    unfold clone_and_publish, bind, call, lift, throw.
    rewrite Ht, Hs. simpl. rewrite Hn.
    destruct d; simpl; try (now elim Hty); repeat split.
Qed.

(** *** What the second half of the handler leaves alone *)

Lemma publish_calls_only (p : Call -> bool) (k : nat) (rs : list string)
    (evs : list Event.t) (i : nat) :
  (forall r ev, p (CPublish r ev) = false) ->
  (forall ms, p (CSetTimeout ms) = false) ->
  (forall m e, p (CConsoleWarn m e) = false) ->
  only p (publish_calls k rs evs i) = [].
Proof.
  intros Hp Ht Hw. revert k i.
  induction evs as [|ev evs IH]; intros k i; simpl; [reflexivity|].
  rewrite only_app, IH, app_nil_r. unfold step_calls.
  rewrite only_app.
  assert (Hm : only p (map (fun r => CPublish [r] ev) rs) = []).
  { clear - Hp. induction rs as [|r rs IHr]; simpl; [reflexivity|].
    rewrite Hp. exact IHr. }
  rewrite Hm. destruct (Promise_any (map Promise_resolve (outcomes k ev rs))); simpl;
    [rewrite Ht|rewrite Hw]; reflexivity.
Qed.

Lemma publish_ui_rest (total : nat) (evs : list Event.t) (i : nat) (u : UI) :
  exists st, publish_ui total evs i u = with_status st u.
Proof.
  revert i u. induction evs as [|ev evs IH]; intros i u; simpl.
  - exists (status u). destruct u; reflexivity.
  - destruct (IH (S i) (with_status (publishing_status i total) u)) as [st ->].
    exists st. reflexivity.
Qed.

Lemma clone_ui_rest (total : nat) (evs : list Event.t) (i : nat) (u : UI) :
  exists st, clone_ui total evs i u = with_status st u.
Proof.
  revert i u. induction evs as [|ev evs IH]; intros i u; simpl.
  - exists (status u). destruct u; reflexivity.
  - destruct (IH (S i) (with_status (cloning_status i total) u)) as [st ->].
    exists st. reflexivity.
Qed.

(** The block that clones and publishes never touches the error message and
    never queries; when it throws, the shown events are still the old ones. *)
Lemma clone_and_publish_frame (u : UI) (fetched : list Event.t) (s : State) :
  error (ui (snd (clone_and_publish u fetched s))) = error (ui s) /\
  only is_query (trace (snd (clone_and_publish u fetched s))) =
    only is_query (trace s) /\
  (forall e, fst (clone_and_publish u fetched s) = inl e ->
             events (ui (snd (clone_and_publish u fetched s))) =
               events (ui s)).
Proof.
  unfold clone_and_publish.
  destruct (truthy (nsec u)); [|simpl; auto].
  destruct (startsWith (nsec u) "nsec1"); simpl; [|auto].
  unfold bind, call, lift, throw. simpl.
  assert (Hq : forall c, is_query c = false ->
             only is_query (trace s ++ [c]) = only is_query (trace s)).
  { intros c Hc. rewrite only_app. simpl. rewrite Hc. apply app_nil_r. }
  destruct (nip19_decode (nsec u)) as [e|d]; simpl; [auto|].
  destruct d as [h|sk|n|a b|a b|a b]; simpl; auto.
  rewrite <- app_assoc. simpl.
  destruct (getPublicKey sk) as [e|pk]; simpl.
  { repeat split. rewrite only_app. simpl. apply app_nil_r. }
  unfold setStatus, modify_ui. simpl.
  match goal with
  | |- context [clone_from pk sk ?n fetched 0 ?s1] =>
      pose proof (clone_from_keeps pk sk n fetched 0 s1) as (K1 & K2 & K3);
      destruct (clone_from pk sk n fetched 0 s1) as [[e|cs] s2]
  end; simpl in *.
  { rewrite K1, K2, K3. repeat split. rewrite only_app. simpl.
    apply app_nil_r. }
  rewrite publish_from_spec. simpl. unfold setEvents, modify_ui. simpl.
  destruct (publish_ui_rest (length cs) cs 0
              (with_status "Publishing events..." (ui s2))) as [st ->].
  simpl. rewrite K2. repeat split.
  - rewrite only_app, (publish_calls_only is_query), app_nil_r, K3, only_app
      by reflexivity.
    simpl. apply app_nil_r.
  - discriminate.
Qed.


(** The queries of a run, read off the source key alone. *)
Lemma try_body_frame (u : UI) (s : State) :
  error (ui (snd (try_body u s))) = error (ui s) /\
  only is_query (trace (snd (try_body u s))) =
    only is_query (trace s) ++
    (if startsWith (npub u) "npub1" then
       match nip19_decode (npub u) with
       | inr (Dnpub pubkeyHex) => [CQuerySync (relays u) (notes_of pubkeyHex)]
       | _ => []
       end
     else []) /\
  (forall e, fst (try_body u s) = inl e ->
             events (ui (snd (try_body u s))) = events (ui s)).
Proof.
  unfold try_body.
  destruct (startsWith (npub u) "npub1"); simpl;
    [|rewrite app_nil_r; auto].
  unfold bind, call, lift, throw, setStatus, modify_ui. simpl.
  assert (Hd : only is_query (trace s ++ [CDecode (npub u)]) =
               only is_query (trace s)).
  { rewrite only_app. simpl. apply app_nil_r. }
  destruct (nip19_decode (npub u)) as [e|d]; simpl.
  { rewrite Hd, app_nil_r. auto. }
  destruct d as [h|sk|n|a b|a b|a b]; simpl;
    try (rewrite Hd, app_nil_r; auto; fail).
  assert (Hq : only is_query
                 ((trace s ++ [CDecode (npub u)]) ++
                  [CQuerySync (relays u) (notes_of h)]) =
               only is_query (trace s) ++
               [CQuerySync (relays u) (notes_of h)]).
  { rewrite only_app, Hd. reflexivity. }
  unfold notes_of in *.
  destruct (pool_querySync (relays u) _) as [e|fetched]; simpl.
  { rewrite Hq. auto. }
  destruct (Nat.eqb (length fetched) 0); simpl.
  { rewrite Hq. auto. }
  match goal with
  | |- context [clone_and_publish u fetched ?s1] =>
      pose proof (clone_and_publish_frame u fetched s1) as (F1 & F2 & F3);
      destruct (clone_and_publish u fetched s1) as [r s2]
  end.
  simpl in *. rewrite F1, F2, Hq. auto.
Qed.

(** C9.  The relays are queried at most once in a run, and only for the
    author that the source key decodes to, with the kind filter [1] (text
    notes) and the limit 50: the query is made exactly when the source key
    starts with [npub1] and decodes to a public key. *)
Theorem C9_query_is_for_the_source_author (u : UI) :
  only is_query (trace (final u)) =
    if startsWith (npub u) "npub1" then
      match nip19_decode (npub u) with
      | inr (Dnpub pubkeyHex) =>
          [CQuerySync (relays u)
                      {| kinds := [1%Z]; authors := [pubkeyHex];
                         limit := 50%Z |}]
      | _ => []
      end
    else [].
Proof.
  unfold final, handleCloneEvents, start,
    try_catch_finally, bind, get_ui, setIsLoading, setError,
    setIsModalOpen, modify_ui, call. simpl.
  match goal with
  | |- context [try_body u ?s0] =>
      pose proof (try_body_frame u s0) as (_ & F & _);
      destruct (try_body u s0) as [[e|[]] s1]
  end; simpl in *; [rewrite only_app|]; rewrite F; simpl;
    try rewrite app_nil_r; reflexivity.
Qed.

(** *** The run that goes through *)

Lemma startsWith_truthy (s p : string) :
  p <> "" -> startsWith s p = true -> truthy s = true.
Proof.
  unfold startsWith. destruct s; simpl; [|reflexivity].
  destruct p; [congruence|discriminate].
Qed.

(** With both keys valid, a query that found something and every signature
    succeeding, the whole run is known: the final component state and every
    call, in order. *)
Lemma run_done (u : UI) (pubkeyHex : string) (fetched : list Event.t)
    (sk : SecretKey) (pk : string) (cs : list Event.t) :
  startsWith (npub u) "npub1" = true ->
  nip19_decode (npub u) = inr (Dnpub pubkeyHex) ->
  pool_querySync (relays u) (notes_of pubkeyHex) = inr fetched ->
  fetched <> [] ->
  startsWith (nsec u) "nsec1" = true ->
  nip19_decode (nsec u) = inr (Dnsec sk) ->
  getPublicKey sk = inr pk ->
  sign_all pk sk 0 fetched = inr cs ->
  final u =
    {| ui := {| npub := npub u; relays := relays u; events := cs;
                isModalOpen := false; nsec := nsec u; isLoading := false;
                error := None; status := "Complete!" |};
       reads := length fetched;
       pubs := length cs * length (relays u);
       trace := [CDecode (npub u); CQuerySync (relays u) (notes_of pubkeyHex);
                 CDecode (nsec u); CGetPublicKey sk]
                ++ clone_calls pk sk 0 fetched
                ++ publish_calls 0 (relays u) cs 0 |}.
Proof.
  intros Hp Hd Hq Hne Hs Hn Hk Hc.
  assert (Ht : truthy (nsec u) = true)
    by (apply (startsWith_truthy _ "nsec1"); [discriminate|exact Hs]).
  run_handler. rewrite Hp. simpl. rewrite Hd.
  unfold notes_of in *. rewrite Hq.
  destruct fetched as [|ev0 rest] eqn:Hf; [contradiction|].
  rewrite <- Hf in *. assert (Hl : Nat.eqb (length fetched) 0 = false)
    by (rewrite Hf; reflexivity).
  rewrite Hl.
  unfold clone_and_publish, bind, call, lift, throw, setStatus,
    setEvents, modify_ui. rewrite Ht, Hs. simpl. rewrite Hn, Hk.
  erewrite clone_from_ok by (simpl; exact Hc).
  rewrite publish_from_spec. simpl.
  destruct (publish_ui_rest (length cs) cs 0
             (with_status "Publishing events..."
                (clone_ui (length fetched) fetched 0
                   (with_status "Cloning events..."
                      (with_status
                         ("Found " ++ show (length fetched)
                          ++ " events to clone...")
                         (with_status "Fetching events..."
                            (with_error None (with_isLoading true u))))))))
    as [st Hst].
  simpl in Hst. rewrite Hst. unfold with_status at 1 2. simpl.
  destruct (clone_ui_rest (length fetched) fetched 0
              (with_status "Cloning events..."
                 (with_status
                    ("Found " ++ show (length fetched)
                     ++ " events to clone...")
                    (with_status "Fetching events..."
                       (with_error None (with_isLoading true u))))))
    as [st' Hst'].
  simpl in Hst'. rewrite Hst'. reflexivity.
Qed.

Lemma clone_calls_finalize (pk : string) (sk : SecretKey) (r : nat)
    (evs : list Event.t) (j : nat) (ev : Event.t) :
  nth_error evs j = Some ev ->
  nth_error (only is_finalize (clone_calls pk sk r evs)) j =
    Some (CFinalizeEvent (template pk (r + j) ev) sk).
Proof.
  revert r j. induction evs as [|e0 evs IH]; intros r j H.
  - destruct j; discriminate.
  - destruct j as [|j]; simpl in *.
    + inversion H. now rewrite Nat.add_0_r.
    + rewrite Nat.add_succ_r. apply (IH (S r) j H).
Qed.

Lemma clone_calls_clock (pk : string) (sk : SecretKey) (r : nat)
    (evs : list Event.t) :
  length (only is_clock (clone_calls pk sk r evs)) = length evs.
Proof.
  revert r. induction evs as [|e0 evs IH]; intros r; simpl; auto.
Qed.

Lemma clone_calls_only (p : Call -> bool) (pk : string) (sk : SecretKey)
    (r : nat) (evs : list Event.t) :
  p CDateNow = false ->
  (forall t k, p (CFinalizeEvent t k) = false) ->
  only p (clone_calls pk sk r evs) = [].
Proof.
  intros Hc Hf. revert r.
  induction evs as [|e0 evs IH]; intros r; simpl; [reflexivity|].
  rewrite Hc, Hf. apply IH.
Qed.

(** C1.  With a valid source key, a query that found something and a valid
    destination key (it decodes to a secret key, its public key can be
    derived and it signs), the run shows one cloned event per fetched event,
    in the same order.  The clone has the kind, tags and content of its
    source and the public key derived from the destination key, which is
    derived once in the run.  Its [created_at] is the clock reading taken for
    this very event (the j-th reading for the j-th event), in whole seconds.
    It is what [finalizeEvent] returns for the template with empty [id] and
    [sig]: its id is the hash of the template and its signature signs that
    id. *)
Theorem C1_every_event_is_cloned (u : UI) (pubkeyHex : string)
    (fetched : list Event.t) (sk : SecretKey) (pk : string) :
  startsWith (npub u) "npub1" = true ->
  nip19_decode (npub u) = inr (Dnpub pubkeyHex) ->
  pool_querySync (relays u) (notes_of pubkeyHex) = inr fetched ->
  fetched <> [] ->
  startsWith (nsec u) "nsec1" = true ->
  nip19_decode (nsec u) = inr (Dnsec sk) ->
  getPublicKey sk = inr pk ->
  (forall m, exists sg, schnorr_sign m sk = inr sg) ->
  length (events (ui (final u))) = length fetched /\
  only is_derive (trace (final u)) = [CGetPublicKey sk] /\
  length (only is_clock (trace (final u))) = length fetched /\
  forall j ev,
    nth_error fetched j = Some ev ->
    exists c,
      nth_error (events (ui (final u))) j = Some c /\
      Event.kind c = Event.kind ev /\
      Event.tags c = Event.tags ev /\
      Event.content c = Event.content ev /\
      Event.pubkey c = pk /\
      Event.created_at c = (Date_now j / 1000)%Z /\
      nth_error (only is_finalize (trace (final u))) j =
        Some (CFinalizeEvent (template pk j ev) sk) /\
      Event.id (template pk j ev) = "" /\
      Event.sig (template pk j ev) = "" /\
      finalizeEvent (template pk j ev) sk = inr c /\
      Event.id c = getEventHash (unsigned (template pk j ev)) /\
      schnorr_sign (Event.id c) sk = inr (Event.sig c).
Proof.
  intros Hp Hd Hq Hne Hs Hn Hk Hsig.
  destruct (sign_all_total pk sk 0 fetched Hsig) as [cs Hc].
  rewrite (run_done u pubkeyHex fetched sk pk cs) by assumption. simpl.
  split; [eapply sign_all_length, Hc|].
  split.
  { change (?a :: ?b :: ?c :: ?d :: ?l) with ([a; b; c; d] ++ l).
    rewrite !only_app, clone_calls_only, publish_calls_only by reflexivity.
    reflexivity. }
  split.
  { change (?a :: ?b :: ?c :: ?d :: ?l) with ([a; b; c; d] ++ l).
    rewrite !only_app, (publish_calls_only is_clock) by reflexivity.
    simpl. rewrite app_nil_r. apply clone_calls_clock. }
  intros j ev Hj.
  destruct (sign_all_nth pk sk 0 fetched cs j ev Hc Hj) as [c [Hcj Hf]].
  simpl in Hf.
  destruct (finalizeEvent_fields _ _ _ Hf)
    as (Hid & Hsg & Hpk & Hca & Hki & Hta & Hco).
  exists c. repeat split; try assumption.
  change (?a :: ?b :: ?c :: ?d :: ?l) with ([a; b; c; d] ++ l).
  rewrite !only_app, (publish_calls_only is_finalize) by reflexivity.
  simpl. rewrite app_nil_r.
  apply (clone_calls_finalize pk sk 0 fetched j ev Hj).
Qed.

Lemma outcomes_length (k : nat) (ev : Event.t) (rs : list string) :
  length (outcomes k ev rs) = length rs.
Proof.
  revert k. induction rs as [|r0 rs IH]; intros k; simpl; auto.
Qed.

(** The awaited [Promise.any] of an event fulfils as soon as the relay list
    is not empty, whatever the relays answer. *)
Lemma published_nonempty (k : nat) (ev : Event.t) (rs : list string) :
  rs <> [] -> published k ev rs = true.
Proof.
  intros H. unfold published. rewrite Promise_any_resolved.
  destruct rs as [|r rs]; [contradiction|reflexivity].
Qed.



Lemma publish_calls_publishes (k : nat) (rs : list string)
    (evs : list Event.t) (i : nat) :
  only is_publish (publish_calls k rs evs i) =
    flat_map (fun ev => map (fun r => CPublish [r] ev) rs) evs.
Proof.
  revert k i. induction evs as [|ev evs IH]; intros k i; simpl;
    [reflexivity|].
  rewrite only_app, IH. f_equal. unfold step_calls.
  rewrite only_app.
  assert (Hm : only is_publish (map (fun r => CPublish [r] ev) rs) =
               map (fun r => CPublish [r] ev) rs).
  { clear. induction rs as [|r rs IHr]; simpl; [reflexivity|].
    now rewrite IHr. }
  rewrite Hm. destruct (Promise_any (map Promise_resolve (outcomes k ev rs))); simpl;
    apply app_nil_r.
Qed.


(** *** More on the handler: what every run does *)

(** The cloning loop returns what [sign_all] computes, also when a signature
    fails, and whatever happens it leaves the three inputs alone. *)
Lemma clone_from_value (pk : string) (sk : SecretKey) (total : nat)
    (evs : list Event.t) (i : nat) (s : State) :
  fst (clone_from pk sk total evs i s) = sign_all pk sk (reads s) evs /\
  same_inputs (ui s) (ui (snd (clone_from pk sk total evs i s))).
Proof.
  revert i s. induction evs as [|ev evs IH]; intros i s.
  - simpl. repeat split.
  - simpl. unfold bind at 1. unfold clone_one, bind, setStatus, modify_ui,
      now_seconds, call, lift. simpl.
    fold (template pk (reads s) ev).
    destruct (finalizeEvent (template pk (reads s) ev) sk) as [e|c].
    + simpl. repeat split.
    + match goal with
      | |- context [clone_from pk sk total evs (S i) ?s1] =>
          destruct (IH (S i) s1) as (Hv & Hi);
          destruct (clone_from pk sk total evs (S i) s1) as [[e|cs] s2]
      end; simpl in *; rewrite <- Hv; split; try reflexivity; exact Hi.
Qed.

Lemma clone_from_clock_bound (pk : string) (sk : SecretKey) (total : nat)
    (evs : list Event.t) (i : nat) (s : State) :
  length (only is_clock (trace (snd (clone_from pk sk total evs i s)))) <=
    length (only is_clock (trace s)) + length evs.
Proof.
  revert i s. induction evs as [|ev evs IH]; intros i s.
  - simpl. lia.
  - simpl. unfold bind at 1. unfold clone_one, bind, setStatus, modify_ui,
      now_seconds, call, lift. simpl.
    match goal with
    | |- context [finalizeEvent ?t sk] =>
        destruct (finalizeEvent t sk) as [e|c]
    end.
    + simpl. rewrite !only_app, !length_app. simpl. lia.
    + match goal with
      | |- context [clone_from pk sk total evs (S i) ?s1] =>
          specialize (IH (S i) s1);
          destruct (clone_from pk sk total evs (S i) s1) as [[e|cs] s2]
      end; simpl in *; rewrite !only_app, !length_app in IH; simpl in IH;
        lia.
Qed.

Section Quiet.

(** A sort of call that is not made before the publishing loop. *)
Variable p : Call -> bool.
Hypothesis p_decode : forall x, p (CDecode x) = false.
Hypothesis p_query : forall r f, p (CQuerySync r f) = false.
Hypothesis p_derive : forall k, p (CGetPublicKey k) = false.
Hypothesis p_clock : p CDateNow = false.
Hypothesis p_finalize : forall t k, p (CFinalizeEvent t k) = false.

Lemma only_snoc_quiet (t : list Call) (c : Call) :
  p c = false -> only p (t ++ [c]) = only p t.
Proof. intros H. rewrite only_app. simpl. rewrite H. apply app_nil_r. Qed.

Lemma clone_from_only (pk : string) (sk : SecretKey) (total : nat)
    (evs : list Event.t) (i : nat) (s : State) :
  only p (trace (snd (clone_from pk sk total evs i s))) = only p (trace s).
Proof.
  revert i s. induction evs as [|ev evs IH]; intros i s; [reflexivity|].
  simpl. unfold bind at 1. unfold clone_one, bind, setStatus, modify_ui,
    now_seconds, call, lift. simpl.
  match goal with
  | |- context [finalizeEvent ?t sk] =>
      destruct (finalizeEvent t sk) as [e|c]
  end.
  - simpl. now rewrite !only_snoc_quiet.
  - match goal with
    | |- context [clone_from pk sk total evs (S i) ?s1] =>
        specialize (IH (S i) s1);
        destruct (clone_from pk sk total evs (S i) s1) as [[e|cs] s2]
    end; simpl in *; rewrite IH; now rewrite !only_snoc_quiet.
Qed.

(** When the block that clones and publishes throws, it has made none of
    these calls; when the publishing loop makes none of them either, the
    block makes none of them at all. *)
Lemma clone_and_publish_only (u : UI) (fetched : list Event.t) (s : State) :
  ((forall e, fst (clone_and_publish u fetched s) = inl e ->
     only p (trace (snd (clone_and_publish u fetched s))) =
       only p (trace s)) /\
   ((forall r ev, p (CPublish r ev) = false) ->
    (forall ms, p (CSetTimeout ms) = false) ->
    (forall m e, p (CConsoleWarn m e) = false) ->
    only p (trace (snd (clone_and_publish u fetched s))) =
      only p (trace s))) /\
  same_inputs (ui s) (ui (snd (clone_and_publish u fetched s))).
Proof.
  unfold clone_and_publish.
  destruct (truthy (nsec u)); [|simpl; repeat split].
  destruct (startsWith (nsec u) "nsec1"); simpl; [|repeat split].
  unfold bind, call, lift, throw. simpl.
  destruct (nip19_decode (nsec u)) as [e|d]; simpl.
  { repeat split; intros; now rewrite only_snoc_quiet. }
  destruct d as [h|sk|n|a b|a b|a b]; simpl;
    try (repeat split; intros; now rewrite only_snoc_quiet).
  destruct (getPublicKey sk) as [e|pk]; simpl.
  { repeat split; intros; now rewrite !only_snoc_quiet. }
  unfold setStatus, modify_ui. simpl.
  match goal with
  | |- context [clone_from pk sk ?n fetched 0 ?s1] =>
      pose proof (clone_from_only pk sk n fetched 0 s1) as Ho;
      destruct (clone_from_value pk sk n fetched 0 s1) as (_ & Hi);
      destruct (clone_from pk sk n fetched 0 s1) as [[e|cs] s2]
  end; simpl in *.
  { rewrite Ho, !only_snoc_quiet by auto. repeat split; apply Hi. }
  rewrite publish_from_spec. simpl. unfold setEvents, modify_ui. simpl.
  destruct (publish_ui_rest (length cs) cs 0
              (with_status "Publishing events..." (ui s2))) as [st ->].
  simpl. split; [split|exact Hi].
  - discriminate.
  - intros Hp Ht Hw.
    rewrite only_app, (publish_calls_only p), app_nil_r, Ho by assumption.
    now rewrite !only_snoc_quiet.
Qed.

Lemma try_body_only (u : UI) (s : State) :
  ((forall e, fst (try_body u s) = inl e ->
     only p (trace (snd (try_body u s))) = only p (trace s)) /\
   ((forall r ev, p (CPublish r ev) = false) ->
    (forall ms, p (CSetTimeout ms) = false) ->
    (forall m e, p (CConsoleWarn m e) = false) ->
    only p (trace (snd (try_body u s))) = only p (trace s))) /\
  same_inputs (ui s) (ui (snd (try_body u s))).
Proof.
  unfold try_body.
  destruct (startsWith (npub u) "npub1"); simpl; [|repeat split].
  unfold bind, call, lift, throw, setStatus, modify_ui. simpl.
  destruct (nip19_decode (npub u)) as [e|d]; simpl.
  { repeat split; intros; now rewrite only_snoc_quiet. }
  destruct d as [h|sk|n|a b|a b|a b]; simpl;
    try (repeat split; intros; now rewrite only_snoc_quiet).
  destruct (pool_querySync (relays u) _) as [e|fetched]; simpl.
  { repeat split; intros; now rewrite !only_snoc_quiet. }
  destruct (Nat.eqb (length fetched) 0); simpl.
  { repeat split; intros; now rewrite !only_snoc_quiet. }
  match goal with
  | |- context [clone_and_publish u fetched ?s1] =>
      destruct (clone_and_publish_only u fetched s1) as ((T & A) & I);
      destruct (clone_and_publish u fetched s1) as [r s2]
  end.
  simpl in *. split; [split|exact I].
  - intros e He. rewrite (T e He). now rewrite !only_snoc_quiet.
  - intros Hp Ht Hw. rewrite (A Hp Ht Hw). now rewrite !only_snoc_quiet.
Qed.

End Quiet.

Ltac open_handler :=
  unfold final, handleCloneEvents, start, try_catch_finally, bind, get_ui,
    setIsLoading, setError, setIsModalOpen, modify_ui, call; simpl.

Lemma failed_run_events (u : UI) :
  error (ui (final u)) <> None -> events (ui (final u)) = events u.
Proof.
  open_handler.
  match goal with
  | |- context [try_body u ?s0] =>
      pose proof (try_body_frame u s0) as (F1 & _ & F3);
      destruct (try_body u s0) as [[e|[]] s1]
  end; simpl in *.
  - intros _. apply (F3 e eq_refl).
  - intros H. now elim H.
Qed.


(** X3.  A run that ends with an error message has published nothing: it made
    no [pool.publish] call, set no timer and logged no publish warning.  The
    events are published only once all of them are signed. *)
Theorem failed_run_publishes_nothing (u : UI) :
  error (ui (final u)) <> None ->
  only is_publish (trace (final u)) = [] /\
  only is_timeout (trace (final u)) = [] /\
  only is_warn (trace (final u)) = [].
Proof.
  open_handler.
  match goal with
  | |- context [try_body u ?s0] =>
      destruct (try_body_only is_publish
                  ltac:(reflexivity) ltac:(reflexivity) ltac:(reflexivity)
                  ltac:(reflexivity) ltac:(reflexivity) u s0)
        as ((Tp & _) & _);
      destruct (try_body_only is_timeout
                  ltac:(reflexivity) ltac:(reflexivity) ltac:(reflexivity)
                  ltac:(reflexivity) ltac:(reflexivity) u s0)
        as ((Tt & _) & _);
      destruct (try_body_only is_warn
                  ltac:(reflexivity) ltac:(reflexivity) ltac:(reflexivity)
                  ltac:(reflexivity) ltac:(reflexivity) u s0)
        as ((Tw & _) & _);
      pose proof (try_body_frame u s0) as (Fe & _ & _);
      destruct (try_body u s0) as [[e|[]] s1]
  end; simpl in *.
  - intros _. rewrite !only_app, (Tp e), (Tt e), (Tw e) by reflexivity.
    repeat split.
  - intros H. rewrite Fe in H. now elim H.
Qed.

(** X4.  A failure is logged exactly once, as the last call of the run, and
    the message shown is the message of the thrown error, or
    [Unknown error occurred] when what was thrown is not an [Error]; a run
    without an error message logged no error. *)
Theorem failure_is_logged_once (u : UI) :
  (error (ui (final u)) = None ->
   only is_error_log (trace (final u)) = []) /\
  (forall msg,
     error (ui (final u)) = Some msg ->
     exists t e,
       trace (final u) =
         t ++ [CConsoleError "Error fetching/cloning events:" e] /\
       only is_error_log t = [] /\
       msg = message_of e /\
       (forall v, e = JsValue v -> msg = "Unknown error occurred")).
Proof.
  open_handler.
  match goal with
  | |- context [try_body u ?s0] =>
      destruct (try_body_only is_error_log
                  ltac:(reflexivity) ltac:(reflexivity) ltac:(reflexivity)
                  ltac:(reflexivity) ltac:(reflexivity) u s0)
        as ((_ & A) & _);
      specialize (A ltac:(reflexivity) ltac:(reflexivity)
                    ltac:(reflexivity));
      pose proof (try_body_frame u s0) as (Fe & _ & _);
      destruct (try_body u s0) as [[e|[]] s1]
  end; simpl in *.
  - split; [discriminate|]. intros msg H. inversion H; subst msg.
    exists (trace s1), e. repeat split; [exact A|].
    intros v ->. reflexivity.
  - split; [intros _; exact A|]. intros msg H. rewrite Fe in H.
    discriminate.
Qed.

(** X5.  When [nip19.decode] throws on a source key that has the right
    prefix (a bad checksum, say), the run fails with the message of what was
    thrown, before any relay is queried; the shown events stay. *)
Theorem source_key_decode_throws (u : UI) (e : Thrown) :
  startsWith (npub u) "npub1" = true ->
  nip19_decode (npub u) = inl e ->
  error (ui (final u)) = Some (message_of e) /\
  events (ui (final u)) = events u /\
  status (ui (final u)) = status u /\
  trace (final u) =
    [CDecode (npub u); CConsoleError "Error fetching/cloning events:" e].
Proof.
  intros Hp Hd. run_handler. rewrite Hp. simpl. rewrite Hd. repeat split.
Qed.

(** X6.  When the query itself fails, the run fails with the message of the
    rejection: nothing is decoded for the destination key, nothing is signed
    or published, and the status stays at [Fetching events...]. *)
Theorem query_rejection_is_fatal (u : UI) (pubkeyHex : string) (e : Thrown) :
  startsWith (npub u) "npub1" = true ->
  nip19_decode (npub u) = inr (Dnpub pubkeyHex) ->
  pool_querySync (relays u) (notes_of pubkeyHex) = inl e ->
  error (ui (final u)) = Some (message_of e) /\
  events (ui (final u)) = events u /\
  status (ui (final u)) = "Fetching events..." /\
  trace (final u) =
    [CDecode (npub u); CQuerySync (relays u) (notes_of pubkeyHex);
     CConsoleError "Error fetching/cloning events:" e].
Proof.
  intros Hp Hd Hq. run_handler. rewrite Hp. simpl. rewrite Hd.
  unfold notes_of in Hq. rewrite Hq. repeat split.
Qed.

(** X7.  A destination key with the right prefix on which the library fails:
    when [nip19.decode] throws, or when the key decodes and [getPublicKey]
    throws, the run fails with that message after the query; the clock is not
    read, nothing is signed, nothing is published and the shown events
    stay. *)
Theorem destination_key_library_failure (u : UI) (pubkeyHex : string)
    (fetched : list Event.t) (e : Thrown) :
  startsWith (npub u) "npub1" = true ->
  nip19_decode (npub u) = inr (Dnpub pubkeyHex) ->
  pool_querySync (relays u) (notes_of pubkeyHex) = inr fetched ->
  fetched <> [] ->
  startsWith (nsec u) "nsec1" = true ->
  (nip19_decode (nsec u) = inl e ->
     error (ui (final u)) = Some (message_of e) /\
     events (ui (final u)) = events u /\
     trace (final u) =
       [CDecode (npub u); CQuerySync (relays u) (notes_of pubkeyHex);
        CDecode (nsec u);
        CConsoleError "Error fetching/cloning events:" e]) /\
  (forall sk,
     nip19_decode (nsec u) = inr (Dnsec sk) ->
     getPublicKey sk = inl e ->
     error (ui (final u)) = Some (message_of e) /\
     events (ui (final u)) = events u /\
     trace (final u) =
       [CDecode (npub u); CQuerySync (relays u) (notes_of pubkeyHex);
        CDecode (nsec u); CGetPublicKey sk;
        CConsoleError "Error fetching/cloning events:" e]).
Proof.
  intros Hp Hd Hq Hne Hs.
  assert (Ht : truthy (nsec u) = true)
    by (apply (startsWith_truthy _ "nsec1"); [discriminate|exact Hs]).
  destruct fetched as [|ev rest]; [contradiction|].
  unfold notes_of in Hq.
  split.
  - intros Hn. run_handler. rewrite Hp. simpl. rewrite Hd, Hq. simpl.
    unfold clone_and_publish, bind, call, lift, throw.
    rewrite Ht, Hs. simpl. rewrite Hn. repeat split.
  - intros sk Hn Hk. run_handler. rewrite Hp. simpl. rewrite Hd, Hq. simpl.
    unfold clone_and_publish, bind, call, lift, throw.
    rewrite Ht, Hs. simpl. rewrite Hn. simpl. rewrite Hk. repeat split.
Qed.

(** X8.  When a signature fails, on whichever event, the run fails with the
    message of the first signing error.  Nothing has been published by then,
    not even the events already signed: no [pool.publish] call, no timer, and
    the shown events and the single query are as in any failed run. *)
Theorem signing_failure_stops_before_publishing (u : UI)
    (pubkeyHex : string) (fetched : list Event.t) (sk : SecretKey)
    (pk : string) (e : Thrown) :
  startsWith (npub u) "npub1" = true ->
  nip19_decode (npub u) = inr (Dnpub pubkeyHex) ->
  pool_querySync (relays u) (notes_of pubkeyHex) = inr fetched ->
  fetched <> [] ->
  startsWith (nsec u) "nsec1" = true ->
  nip19_decode (nsec u) = inr (Dnsec sk) ->
  getPublicKey sk = inr pk ->
  sign_all pk sk 0 fetched = inl e ->
  error (ui (final u)) = Some (message_of e) /\
  events (ui (final u)) = events u /\
  only is_publish (trace (final u)) = [] /\
  only is_timeout (trace (final u)) = [] /\
  only is_derive (trace (final u)) = [CGetPublicKey sk] /\
  length (only is_clock (trace (final u))) <= length fetched.
Proof.
  intros Hp Hd Hq Hne Hs Hn Hk Hc.
  assert (Ht : truthy (nsec u) = true)
    by (apply (startsWith_truthy _ "nsec1"); [discriminate|exact Hs]).
  run_handler. rewrite Hp. simpl. rewrite Hd.
  unfold notes_of in *. rewrite Hq.
  destruct fetched as [|ev0 rest] eqn:Hf; [contradiction|].
  rewrite <- Hf in *.
  assert (Hl : Nat.eqb (length fetched) 0 = false)
    by (rewrite Hf; reflexivity).
  rewrite Hl.
  unfold clone_and_publish, bind, call, lift, throw, setStatus,
    setEvents, modify_ui. rewrite Ht, Hs. simpl. rewrite Hn, Hk.
  match goal with
  | |- context [clone_from pk sk ?n fetched 0 ?s1] =>
      destruct (clone_from_value pk sk n fetched 0 s1) as (Hv & _);
      pose proof (clone_from_keeps pk sk n fetched 0 s1) as (K1 & K2 & _);
      pose proof (clone_from_only is_publish ltac:(reflexivity)
                    ltac:(reflexivity) pk sk n fetched 0 s1) as Op;
      pose proof (clone_from_only is_timeout ltac:(reflexivity)
                    ltac:(reflexivity) pk sk n fetched 0 s1) as Ot;
      pose proof (clone_from_only is_derive ltac:(reflexivity)
                    ltac:(reflexivity) pk sk n fetched 0 s1) as Od;
      pose proof (clone_from_clock_bound pk sk n fetched 0 s1) as Oc;
      destruct (clone_from pk sk n fetched 0 s1) as [[e'|cs] s2]
  end; simpl in *; rewrite Hc in Hv; [|discriminate].
  inversion Hv; subst e'.
  rewrite !only_app, Op, Ot, Od, K1. simpl. rewrite !app_nil_r.
  repeat split. exact Oc.
Qed.

(** *** More on the run that goes through: counting the calls *)

Lemma only_map_publish (q : Call -> bool) (ev : Event.t) (rs : list string) :
  (forall r e, q (CPublish r e) = false) ->
  only q (map (fun r => CPublish [r] ev) rs) = [].
Proof.
  intros H. induction rs as [|r rs IH]; simpl; [reflexivity|].
  rewrite H. exact IH.
Qed.

Lemma publish_calls_paced_or_warned (k : nat) (rs : list string)
    (evs : list Event.t) (i : nat) :
  length (only is_timeout (publish_calls k rs evs i)) +
  length (only is_warn (publish_calls k rs evs i)) = length evs.
Proof.
  revert k i. induction evs as [|ev evs IH]; intros k i; simpl;
    [reflexivity|].
  rewrite !only_app, !length_app. specialize (IH (k + length rs) (S i)).
  unfold step_calls. rewrite !only_app, !only_map_publish by reflexivity.
  destruct (Promise_any (map Promise_resolve (outcomes k ev rs))); simpl; lia.
Qed.

Lemma publish_calls_all_taken (k : nat) (rs : list string)
    (evs : list Event.t) (i : nat) :
  (forall k ev, published k ev rs = true) ->
  only is_warn (publish_calls k rs evs i) = [] /\
  only is_timeout (publish_calls k rs evs i) =
    repeat (CSetTimeout 50) (length evs).
Proof.
  intros H. revert k i. induction evs as [|ev evs IH]; intros k i; simpl;
    [auto|].
  destruct (IH (k + length rs) (S i)) as [Iw It].
  rewrite !only_app, Iw, It. unfold step_calls.
  rewrite !only_app, !only_map_publish by reflexivity.
  specialize (H k ev). unfold published in H.
  destruct (Promise_any (map Promise_resolve (outcomes k ev rs))); [|discriminate]. auto.
Qed.

Lemma flat_map_publish_length (rs : list string) (evs : list Event.t) :
  length (flat_map (fun ev => map (fun r => CPublish [r] ev) rs) evs) =
    length evs * length rs.
Proof.
  induction evs as [|ev evs IH]; simpl; [reflexivity|].
  rewrite length_app, length_map, IH. reflexivity.
Qed.

Ltac split_done_trace :=
  change (?a :: ?b :: ?c :: ?d :: ?l) with ([a; b; c; d] ++ l);
  rewrite !only_app, ?clone_calls_only by reflexivity; simpl.

(** X9.  A run that goes through calls [pool.publish] once per event and
    relay, and after each event either sets the timer or logs a warning,
    never both and never neither. *)
Theorem done_run_call_counts (u : UI) (pubkeyHex : string)
    (fetched : list Event.t) (sk : SecretKey) (pk : string)
    (cs : list Event.t) :
  startsWith (npub u) "npub1" = true ->
  nip19_decode (npub u) = inr (Dnpub pubkeyHex) ->
  pool_querySync (relays u) (notes_of pubkeyHex) = inr fetched ->
  fetched <> [] ->
  startsWith (nsec u) "nsec1" = true ->
  nip19_decode (nsec u) = inr (Dnsec sk) ->
  getPublicKey sk = inr pk ->
  sign_all pk sk 0 fetched = inr cs ->
  length (only is_publish (trace (final u))) =
    length fetched * length (relays u) /\
  length (only is_timeout (trace (final u))) +
  length (only is_warn (trace (final u))) = length fetched /\
  length (only is_finalize (trace (final u))) = length fetched /\
  only is_error_log (trace (final u)) = [].
Proof.
  intros Hp Hd Hq Hne Hs Hn Hk Hc.
  rewrite (run_done u pubkeyHex fetched sk pk cs) by assumption. simpl.
  pose proof (sign_all_length pk sk 0 fetched cs Hc) as Hlen.
  repeat split.
  - split_done_trace. rewrite publish_calls_publishes, flat_map_publish_length.
    now rewrite Hlen.
  - split_done_trace. rewrite <- Hlen. apply publish_calls_paced_or_warned.
  - change (?a :: ?b :: ?c :: ?d :: ?l) with ([a; b; c; d] ++ l).
    rewrite !only_app, (publish_calls_only is_finalize) by reflexivity.
    simpl. rewrite app_nil_r. clear.
    generalize 0. induction fetched as [|ev evs IH]; intros r; simpl;
      [reflexivity|]. now rewrite IH.
  - split_done_trace. apply publish_calls_only; reflexivity.
Qed.

(** X11.  When every relay takes every event (and there is a relay), no
    warning is logged and every event is followed by the 50 ms timer: as many
    timers as events. *)
Theorem done_run_all_accepted (u : UI) (pubkeyHex : string)
    (fetched : list Event.t) (sk : SecretKey) (pk : string)
    (cs : list Event.t) :
  startsWith (npub u) "npub1" = true ->
  nip19_decode (npub u) = inr (Dnpub pubkeyHex) ->
  pool_querySync (relays u) (notes_of pubkeyHex) = inr fetched ->
  fetched <> [] ->
  startsWith (nsec u) "nsec1" = true ->
  nip19_decode (nsec u) = inr (Dnsec sk) ->
  getPublicKey sk = inr pk ->
  sign_all pk sk 0 fetched = inr cs ->
  relays u <> [] ->
  (forall k r ev, forallb is_fulfilled (pool_publish k r ev) = true) ->
  only is_warn (trace (final u)) = [] /\
  only is_timeout (trace (final u)) =
    repeat (CSetTimeout 50) (length fetched).
Proof.
  intros Hp Hd Hq Hne Hs Hn Hk Hc Hr Hall.
  rewrite (run_done u pubkeyHex fetched sk pk cs) by assumption. simpl.
  pose proof (sign_all_length pk sk 0 fetched cs Hc) as Hlen.
  destruct (publish_calls_all_taken 0 (relays u) cs 0) as [Iw It].
  { intros k ev. apply published_nonempty, Hr. }
  split; split_done_trace; [exact Iw|now rewrite It, Hlen].
Qed.

(** X13.  The timestamp of a clone is the second in which its own clock
    reading fell: the reading is at most 999 ms past it.  Two events cloned
    within the same second get the same timestamp. *)
Theorem clone_timestamp_is_the_second_of_its_reading (u : UI)
    (pubkeyHex : string) (fetched : list Event.t) (sk : SecretKey)
    (pk : string) (cs : list Event.t) :
  startsWith (npub u) "npub1" = true ->
  nip19_decode (npub u) = inr (Dnpub pubkeyHex) ->
  pool_querySync (relays u) (notes_of pubkeyHex) = inr fetched ->
  fetched <> [] ->
  startsWith (nsec u) "nsec1" = true ->
  nip19_decode (nsec u) = inr (Dnsec sk) ->
  getPublicKey sk = inr pk ->
  sign_all pk sk 0 fetched = inr cs ->
  forall j c,
    nth_error (events (ui (final u))) j = Some c ->
    (1000 * Event.created_at c <= Date_now j
     < 1000 * Event.created_at c + 1000)%Z /\
    (forall j' c',
       nth_error (events (ui (final u))) j' = Some c' ->
       (Date_now j / 1000 = Date_now j' / 1000)%Z ->
       Event.created_at c' = Event.created_at c).
Proof.
  intros Hp Hd Hq Hne Hs Hn Hk Hc.
  assert (He : events (ui (final u)) = cs)
    by (rewrite (run_done u pubkeyHex fetched sk pk cs) by assumption;
        reflexivity).
  rewrite He. clear He.
  pose proof (sign_all_length pk sk 0 fetched cs Hc) as Hlen.
  assert (Hat : forall j c, nth_error cs j = Some c ->
                  Event.created_at c = (Date_now j / 1000)%Z).
  { intros j c Hj.
    assert (Hlt : j < length fetched).
    { rewrite <- Hlen. apply nth_error_Some. congruence. }
    destruct (nth_error fetched j) as [ev|] eqn:Hev;
      [|apply nth_error_None in Hev; lia].
    destruct (sign_all_nth pk sk 0 fetched cs j ev Hc Hev) as [c0 [Hc0 Hf]].
    rewrite Hj in Hc0. inversion Hc0; subst c0.
    destruct (finalizeEvent_fields _ _ _ Hf) as (_ & _ & _ & Hca & _).
    exact Hca. }
  intros j c Hj. rewrite (Hat j c Hj). split.
  - pose proof (Z.div_mod (Date_now j) 1000 ltac:(lia)).
    pose proof (Z.mod_pos_bound (Date_now j) 1000 ltac:(lia)). lia.
  - intros j' c' Hj' E. rewrite (Hat j' c' Hj'). now rewrite E.
Qed.

(** *** What the page shows after a run *)

Lemma sign_all_contents (pk : string) (sk : SecretKey) (r : nat)
    (evs cs : list Event.t) :
  sign_all pk sk r evs = inr cs ->
  map Event.content cs = map Event.content evs.
Proof.
  revert r cs. induction evs as [|ev evs IH]; intros r cs H; simpl in H.
  - inversion H. reflexivity.
  - destruct (finalizeEvent (template pk r ev) sk) as [e|c] eqn:Hf;
      [discriminate|].
    destruct (sign_all pk sk (S r) evs) as [e|cs'] eqn:Hs; [discriminate|].
    inversion H. simpl.
    destruct (finalizeEvent_fields _ _ _ Hf) as (_ & _ & _ & _ & _ & _ & Hc).
    rewrite Hc, (IH _ _ Hs). reflexivity.
Qed.

Lemma cards_contents (evs : list Event.t) (i : nat) :
  map card_content (cards evs i) = map Event.content evs /\
  map card_number (cards evs i) = seq (i + 1) (length evs) /\
  map card_key (cards evs i) = map Event.id evs.
Proof.
  revert i. induction evs as [|ev evs IH]; intros i; simpl; [auto|].
  destruct (IH (S i)) as (H1 & H2 & H3). rewrite H1, H2, H3. auto.
Qed.

(** X14.  After a run that goes through, the page lists one card per fetched
    event, numbered from 1 in fetch order, with the text of the source event
    and the id of the clone as key, under the status line [Complete!] and
    without an error line. *)
Theorem page_after_done_run (u : UI) (pubkeyHex : string)
    (fetched : list Event.t) (sk : SecretKey) (pk : string)
    (cs : list Event.t) :
  startsWith (npub u) "npub1" = true ->
  nip19_decode (npub u) = inr (Dnpub pubkeyHex) ->
  pool_querySync (relays u) (notes_of pubkeyHex) = inr fetched ->
  fetched <> [] ->
  startsWith (nsec u) "nsec1" = true ->
  nip19_decode (nsec u) = inr (Dnsec sk) ->
  getPublicKey sk = inr pk ->
  sign_all pk sk 0 fetched = inr cs ->
  exists r,
    view_results (render (ui (final u))) = Some r /\
    res_status r = Some "Complete!" /\
    res_error r = None /\
    map card_content (res_cards r) = map Event.content fetched /\
    map card_number (res_cards r) = seq 1 (length fetched) /\
    map card_key (res_cards r) = map Event.id cs /\
    view_button_disabled (render (ui (final u))) = false /\
    view_dialog_open (render (ui (final u))) = false.
Proof.
  intros Hp Hd Hq Hne Hs Hn Hk Hc.
  rewrite (run_done u pubkeyHex fetched sk pk cs) by assumption.
  pose proof (sign_all_length pk sk 0 fetched cs Hc) as Hlen.
  pose proof (sign_all_contents pk sk 0 fetched cs Hc) as Hcon.
  destruct (cards_contents cs 0) as (C1 & C2 & C3).
  unfold render. simpl.
  destruct cs as [|c0 cs']; [destruct fetched; [contradiction|discriminate]|].
  eexists. split; [reflexivity|]. simpl in *.
  rewrite <- Hcon, <- Hlen. repeat split; assumption.
Qed.

(** X15.  The error line is inside the results block, and the block is there
    only while events are shown.  So after a failed run the message is on
    the page only if an earlier run left events there, which stay listed;
    with nothing listed before, the failed run shows nothing at all. *)
Theorem error_is_shown_only_with_events (u : UI) (msg : string) :
  error (ui (final u)) = Some msg ->
  (events u = [] -> view_results (render (ui (final u))) = None) /\
  (events u <> [] -> truthy msg = true ->
   exists r,
     view_results (render (ui (final u))) = Some r /\
     res_error r = Some msg /\
     res_cards r = cards (events u) 0).
Proof.
  intros He.
  assert (Hev : events (ui (final u)) = events u)
    by (apply failed_run_events; congruence).
  unfold render. rewrite Hev, He. split.
  - intros ->. reflexivity.
  - intros Hne Ht. destruct (events u) as [|ev evs]; [contradiction|].
    simpl. eexists. split; [reflexivity|]. simpl. rewrite Ht. auto.
Qed.

End Properties.

(** *** What the caller sees of a run that goes through *)

(** C8.  A run that gets to its last line shows every cloned event, one per
    fetched event, and the status [Complete!], with no error message.  The
    component state it leaves is the same whatever the relays answered to the
    publish calls: the outcomes of the publishes are not part of it. *)
Theorem C8_done_shows_every_clone
    (nip19_decode : string -> Thrown + DecodeResult)
    (pool_querySync : list string -> Filter -> Thrown + list Event.t)
    (getPublicKey : SecretKey -> Thrown + string)
    (getEventHash : UnsignedEvent -> string)
    (schnorr_sign : string -> SecretKey -> Thrown + string)
    (Date_now : nat -> Z)
    (pool_publish : nat -> list string -> Event.t -> list (Settled string))
    (u : UI) (pubkeyHex : string) (fetched : list Event.t) (sk : SecretKey)
    (pk : string) (cs : list Event.t) :
  startsWith (npub u) "npub1" = true ->
  nip19_decode (npub u) = inr (Dnpub pubkeyHex) ->
  pool_querySync (relays u) (notes_of pubkeyHex) = inr fetched ->
  fetched <> [] ->
  startsWith (nsec u) "nsec1" = true ->
  nip19_decode (nsec u) = inr (Dnsec sk) ->
  getPublicKey sk = inr pk ->
  sign_all getEventHash schnorr_sign Date_now pk sk 0 fetched = inr cs ->
  let done := final nip19_decode pool_querySync getPublicKey getEventHash
                    schnorr_sign Date_now pool_publish u in
  events (ui done) = cs /\
  length (events (ui done)) = length fetched /\
  status (ui done) = "Complete!" /\
  error (ui done) = None /\
  forall other : nat -> list string -> Event.t -> list (Settled string),
    ui (final nip19_decode pool_querySync getPublicKey getEventHash
              schnorr_sign Date_now other u) = ui done.
Proof.
  intros Hp Hd Hq Hne Hs Hn Hk Hc done. subst done.
  rewrite (run_done nip19_decode pool_querySync getPublicKey getEventHash
             schnorr_sign Date_now pool_publish u pubkeyHex fetched sk pk cs)
    by assumption.
  simpl. repeat split.
  - eapply sign_all_length, Hc.
  - intros other.
    rewrite (run_done nip19_decode pool_querySync getPublicKey getEventHash
               schnorr_sign Date_now other u pubkeyHex fetched sk pk cs)
      by assumption.
    reflexivity.
Qed.

(** *** The statements tried on the concrete world *)

Lemma C1_every_event_is_cloned_witness :
  length (events (ui (Demo.run Demo.by_relay
            (Demo.component "npub1alice" "nsec1bob" Demo.two_relays)))) = 2.
Proof.
  apply (C1_every_event_is_cloned
           Demo.nip19_decode Demo.pool_querySync Demo.getPublicKey
           Demo.getEventHash Demo.schnorr_sign Demo.Date_now Demo.by_relay
           (Demo.component "npub1alice" "nsec1bob" Demo.two_relays)
           "a11ce" Demo.fetched [Byte.x07] "b0b");
    try reflexivity.
  - discriminate.
  - intros m. eexists. reflexivity.
Defined.


Lemma C3_bad_destination_key_fails_after_query_witness :
  error (ui (Demo.run Demo.accept_all
          (Demo.component "npub1alice" "bob" Demo.two_relays)))
    = Some InvalidFormat_nsec /\
  error (ui (Demo.run Demo.accept_all
          (Demo.component "npub1alice" "nsec1odd" Demo.two_relays)))
    = Some WrongKeyType_nsec.
Proof.
  split.
  - apply (proj1 (C3_bad_destination_key_fails_after_query
             Demo.nip19_decode Demo.pool_querySync Demo.getPublicKey
             Demo.getEventHash Demo.schnorr_sign Demo.Date_now Demo.accept_all
             (Demo.component "npub1alice" "bob" Demo.two_relays)
             "a11ce" Demo.fetched eq_refl eq_refl eq_refl
             ltac:(discriminate) eq_refl)).
    reflexivity.
  - apply (proj2 (C3_bad_destination_key_fails_after_query
             Demo.nip19_decode Demo.pool_querySync Demo.getPublicKey
             Demo.getEventHash Demo.schnorr_sign Demo.Date_now Demo.accept_all
             (Demo.component "npub1alice" "nsec1odd" Demo.two_relays)
             "a11ce" Demo.fetched eq_refl eq_refl eq_refl
             ltac:(discriminate) eq_refl) (Dnote "0dd"));
      try reflexivity.
    discriminate.
Defined.

Lemma C4_empty_query_fails_witness :
  error (ui (Demo.run Demo.accept_all
          (Demo.component "npub1nobody" "nsec1bob" Demo.two_relays)))
    = Some NoEventsFound.
Proof.
  apply (C4_empty_query_fails
           Demo.nip19_decode Demo.pool_querySync Demo.getPublicKey
           Demo.getEventHash Demo.schnorr_sign Demo.Date_now Demo.accept_all
           (Demo.component "npub1nobody" "nsec1bob" Demo.two_relays)
           "0b0d1");
    reflexivity.
Defined.

Lemma C6_no_destination_key_is_a_no_op_witness :
  error (ui (Demo.run Demo.accept_all
          (Demo.component "npub1alice" "" Demo.two_relays))) = None.
Proof.
  apply (C6_no_destination_key_is_a_no_op
           Demo.nip19_decode Demo.pool_querySync Demo.getPublicKey
           Demo.getEventHash Demo.schnorr_sign Demo.Date_now Demo.accept_all
           (Demo.component "npub1alice" "" Demo.two_relays)
           "a11ce" Demo.fetched);
    try reflexivity.
  discriminate.
Defined.

Lemma C7_source_key_rejected_witness :
  error (ui (Demo.run Demo.accept_all
          (Demo.component "alice" "nsec1bob" Demo.two_relays)))
    = Some InvalidFormat_npub /\
  error (ui (Demo.run Demo.accept_all
          (Demo.component "npub1odd" "nsec1bob" Demo.two_relays)))
    = Some WrongKeyType_npub.
Proof.
  split.
  - apply (proj1 (C7_source_key_rejected
             Demo.nip19_decode Demo.pool_querySync Demo.getPublicKey
             Demo.getEventHash Demo.schnorr_sign Demo.Date_now Demo.accept_all
             (Demo.component "alice" "nsec1bob" Demo.two_relays))).
    reflexivity.
  - apply (proj2 (C7_source_key_rejected
             Demo.nip19_decode Demo.pool_querySync Demo.getPublicKey
             Demo.getEventHash Demo.schnorr_sign Demo.Date_now Demo.accept_all
             (Demo.component "npub1odd" "nsec1bob" Demo.two_relays))
             (Dnote "0dd"));
      try reflexivity.
    discriminate.
Defined.

Lemma C8_done_shows_every_clone_witness :
  status (ui (Demo.run Demo.by_relay
           (Demo.component "npub1alice" "nsec1bob" Demo.two_relays)))
    = "Complete!".
Proof.
  apply (C8_done_shows_every_clone
           Demo.nip19_decode Demo.pool_querySync Demo.getPublicKey
           Demo.getEventHash Demo.schnorr_sign Demo.Date_now Demo.by_relay
           (Demo.component "npub1alice" "nsec1bob" Demo.two_relays)
           "a11ce" Demo.fetched [Byte.x07] "b0b"
           (events (ui (Demo.run Demo.by_relay
              (Demo.component "npub1alice" "nsec1bob" Demo.two_relays)))));
    try reflexivity.
  discriminate.
Defined.


(** *** Where the handler does something else *)

(** C3, as it was stated, fails: the source key is fine, the destination
    key ["bob"] has the wrong prefix, and the relays are queried all the same
    before the run fails on the destination key. *)
Lemma C3_query_made_before_destination_key_is_checked :
  let u := Demo.component "npub1alice" "bob" Demo.two_relays in
  truthy (nsec u) = true /\
  startsWith (nsec u) "nsec1" = false /\
  only is_query (trace (Demo.run Demo.accept_all u)) =
    [CQuerySync Demo.two_relays (notes_of "a11ce")] /\
  error (ui (Demo.run Demo.accept_all u)) = Some InvalidFormat_nsec.
Proof. vm_compute. repeat split. Qed.

(** C7, as it was stated, fails: the text ["nsec1bob"] decodes, to a secret
    key and not to a public key, and the error is the InvalidFormat message
    of the prefix test, not the WrongKeyType message. *)
Lemma C7_wrong_category_without_prefix_is_InvalidFormat :
  let u := Demo.component "nsec1bob" "" Demo.two_relays in
  Demo.nip19_decode (npub u) = inr (Dnsec [Byte.x07]) /\
  type_of (Dnsec [Byte.x07]) <> "npub" /\
  error (ui (Demo.run Demo.accept_all u)) = Some InvalidFormat_npub /\
  error (ui (Demo.run Demo.accept_all u)) <> Some WrongKeyType_npub.
Proof.
  vm_compute. repeat split; discriminate.
Qed.

(** C2: the run in which both relays refuse both events.  Every promise that
    [pool.publish] returned is rejected, and yet the awaited [Promise.any]
    fulfils, because what it is given are the arrays and not the promises:
    after each event comes the timer, no warning is logged, and nothing
    awaits the rejected promises. *)
Lemma C2_refused_event_is_not_reported :
  let done := Demo.run Demo.refuse_all
                (Demo.component "npub1alice" "nsec1bob" Demo.two_relays) in
  (forall k r ev,
     In r Demo.two_relays ->
     existsb is_fulfilled (Demo.refuse_all k [r] ev) = false) /\
  exists c0 c1,
    events (ui done) = [c0; c1] /\
    only (fun c => is_publish c || is_timeout c || is_warn c) (trace done) =
      [CPublish ["wss://bad"] c0; CPublish ["wss://good"] c0;
       CSetTimeout 50;
       CPublish ["wss://bad"] c1; CPublish ["wss://good"] c1;
       CSetTimeout 50] /\
    only is_warn (trace done) = [] /\
    error (ui done) = None.
Proof.
  split; [reflexivity|].
  vm_compute. do 2 eexists. repeat split.
Qed.


(** *** The relay list and the page *)

Lemma with_relays_same (u : UI) : with_relays (relays u) u = u.
Proof. destruct u; reflexivity. Qed.

Lemma filter_indexed_remove {A} (l : list A) (index k : nat) :
  filter_indexed (fun _ i => negb (Nat.eqb i index)) l k =
    if Nat.ltb index k then l
    else firstn (index - k) l ++ skipn (S (index - k)) l.
Proof.
  revert k. induction l as [|x l IH]; intros k.
  - simpl. destruct (Nat.ltb index k); [reflexivity|].
    now rewrite firstn_nil.
  - simpl. rewrite (IH (S k)).
    destruct (Nat.eqb_spec k index) as [->|Hne].
    + simpl. rewrite Nat.sub_diag.
      destruct (Nat.ltb_spec index (S index)); [|lia].
      destruct (Nat.ltb_spec index index); [lia|]. reflexivity.
    + simpl. destruct (Nat.ltb_spec index (S k)), (Nat.ltb_spec index k);
        try lia; try reflexivity.
      replace (index - k) with (S (index - S k)) by lia. reflexivity.
Qed.

Lemma nth_error_firstn_lt {A} (l : list A) (n j : nat) :
  j < n -> nth_error (firstn n l) j = nth_error l j.
Proof.
  intros H. rewrite nth_error_firstn.
  destruct (Nat.ltb_spec j n); [reflexivity|lia].
Qed.

Lemma remove_at {A} (l : list A) (index : nat) :
  filter_indexed (fun _ i => negb (Nat.eqb i index)) l 0 =
    firstn index l ++ skipn (S index) l.
Proof. rewrite filter_indexed_remove, Nat.sub_0_r. reflexivity. Qed.

Lemma removeRelayInput_removes_one_row_aux (u : UI) (index : nat) :
  index < length (relays u) ->
  S (length (relays (removeRelayInput index u))) = length (relays u).
Proof.
  intros Hlt. unfold removeRelayInput, with_relays. cbn [relays].
  rewrite remove_at, length_app, length_firstn, length_skipn. lia.
Qed.

(** X16.  The remove button takes out the row it is on and nothing else: the
    rows before it stay, the rows after it move up by one.  With an index
    past the end nothing changes. *)
Theorem removeRelayInput_removes_one_row (u : UI) (index : nat) :
  (index < length (relays u) ->
   relays (removeRelayInput index u) =
     firstn index (relays u) ++ skipn (S index) (relays u) /\
   S (length (relays (removeRelayInput index u))) = length (relays u) /\
   forall j,
     nth_error (relays (removeRelayInput index u)) j =
       if Nat.ltb j index then nth_error (relays u) j
       else nth_error (relays u) (S j)) /\
  (length (relays u) <= index -> removeRelayInput index u = u).
Proof.
  unfold removeRelayInput. rewrite remove_at. split.
  - intros Hlt. unfold with_relays. cbn [relays].
    split; [reflexivity|]. split.
    + rewrite length_app, length_firstn, length_skipn. lia.
    + intros j. destruct (Nat.ltb_spec j index) as [Hj|Hj].
      * rewrite nth_error_app1 by (rewrite length_firstn; lia).
        apply nth_error_firstn_lt; lia.
      * rewrite nth_error_app2 by (rewrite length_firstn; lia).
        rewrite length_firstn, nth_error_skipn.
        f_equal. lia.
  - intros Hge. rewrite firstn_all2, skipn_all2, app_nil_r by lia.
    apply with_relays_same.
Qed.

(** X17.  The add button puts one empty row at the end, and removing that
    row gives the component state back as it was. *)
Theorem add_then_remove_restores (u : UI) :
  relays (addRelayInput u) = relays u ++ [""] /\
  removeRelayInput (length (relays u)) (addRelayInput u) = u.
Proof.
  split; [reflexivity|].
  unfold removeRelayInput, addRelayInput, with_relays. cbn [relays].
  rewrite remove_at, firstn_app, Nat.sub_diag, firstn_all.
  rewrite skipn_all2 by (rewrite length_app; simpl; lia).
  cbn [firstn]. rewrite !app_nil_r. destruct u; reflexivity.
Qed.

Lemma dense_map_Some (l : list string) : dense (map Some l) = Some l.
Proof. induction l as [|x l IH]; simpl; [reflexivity|]. now rewrite IH. Qed.

Lemma dense_app_Some (a : list string) (b : list (option string)) :
  dense (map Some a ++ b) =
    match dense b with Some l => Some (a ++ l) | None => None end.
Proof.
  induction a as [|x a IH]; simpl.
  - destruct (dense b); reflexivity.
  - rewrite IH. destruct (dense b); reflexivity.
Qed.

Lemma updateRelay_inside (u : UI) (index : nat) (value : string) :
  index < length (relays u) ->
  updateRelay index value u =
    Some (with_relays (firstn index (relays u) ++
                       value :: skipn (S index) (relays u)) u).
Proof.
  intros Hlt. unfold updateRelay, array_write.
  destruct (Nat.ltb_spec index (length (relays u))); [|lia].
  rewrite dense_app_Some. simpl. now rewrite dense_map_Some.
Qed.

(** X18.  Typing in a relay row changes that row and no other, and keeps the
    number of rows.  A write right at the end of the list adds a row; a write
    further out would leave holes in the array and gives no state of
    strings. *)
Theorem updateRelay_writes_one_row (u : UI) (index : nat) (value : string) :
  (index < length (relays u) ->
   exists u',
     updateRelay index value u = Some u' /\
     length (relays u') = length (relays u) /\
     nth_error (relays u') index = Some value /\
     (forall j, j <> index ->
                nth_error (relays u') j = nth_error (relays u) j) /\
     npub u' = npub u /\ nsec u' = nsec u /\ events u' = events u) /\
  (index = length (relays u) ->
   updateRelay index value u = Some (with_relays (relays u ++ [value]) u)) /\
  (length (relays u) < index -> updateRelay index value u = None).
Proof.
  split; [|split].
  - intros Hlt. eexists. split; [apply updateRelay_inside, Hlt|].
    unfold with_relays. cbn [relays npub nsec events].
    assert (Hf : length (firstn index (relays u)) = index)
      by (rewrite length_firstn; lia).
    repeat split.
    + rewrite length_app. cbn [length]. rewrite Hf, length_skipn. lia.
    + rewrite nth_error_app2 by lia. rewrite Hf, Nat.sub_diag. reflexivity.
    + intros j Hj. destruct (Nat.lt_ge_cases j index) as [Hlo|Hhi].
      * rewrite nth_error_app1 by lia. apply nth_error_firstn_lt; lia.
      * rewrite nth_error_app2 by lia. rewrite Hf.
        destruct (j - index) as [|d] eqn:Hd; [lia|]. cbn [nth_error].
        rewrite nth_error_skipn. f_equal. lia.
  - intros ->. unfold updateRelay, array_write.
    rewrite Nat.ltb_irrefl, Nat.sub_diag. simpl.
    rewrite dense_app_Some. reflexivity.
  - intros Hgt. unfold updateRelay, array_write.
    destruct (Nat.ltb_spec index (length (relays u))); [lia|].
    rewrite dense_app_Some.
    destruct (index - length (relays u)) as [|d] eqn:Hd; [lia|].
    reflexivity.
Qed.

Lemma relay_rows_spec (total : nat) (rs : list string) (k : nat) :
  map row_value (relay_rows total rs k) = rs /\
  map row_key (relay_rows total rs k) = seq k (length rs) /\
  Forall (fun r => row_remove r = Nat.ltb 1 total) (relay_rows total rs k).
Proof.
  revert k. induction rs as [|r rs IH]; intros k; simpl.
  - repeat split. constructor.
  - destruct (IH (S k)) as (H1 & H2 & H3). rewrite H1, H2.
    repeat split. constructor; [reflexivity|exact H3].
Qed.

Lemma row_at_inside (u : UI) (index : nat) (r : RelayRow) :
  row_at (render u) index = Some r ->
  index < length (relays u) /\
  row_remove r = Nat.ltb 1 (length (relays u)).
Proof.
  unfold row_at. intros H. apply find_some in H as [Hin Hk].
  apply Nat.eqb_eq in Hk.
  destruct (relay_rows_spec (length (relays u)) (relays u) 0)
    as (_ & Hkeys & Hrem).
  split.
  - assert (Hi : In (row_key r) (map row_key (view_rows (render u))))
      by (apply in_map, Hin).
    simpl in Hi. rewrite Hkeys in Hi. apply in_seq in Hi. lia.
  - rewrite Forall_forall in Hrem. apply Hrem, Hin.
Qed.

(** An action that the page offers keeps at least one relay on the list. *)
Lemma act_keeps_a_relay (a : Action) (u u' : UI) :
  relays u <> [] ->
  act a u = Some u' ->
  relays u' <> [].
Proof.
  intros Hr. destruct a as [v| |index v|index| |o|v]; cbn [act].
  - intros H. inversion H. auto.
  - intros H. inversion H. simpl.
    destruct (relays u); discriminate.
  - destruct (row_at (render u) index) as [r|] eqn:Hrow; [|discriminate].
    apply row_at_inside in Hrow as [Hlt _].
    rewrite updateRelay_inside by exact Hlt.
    intros H. inversion H. simpl.
    destruct (firstn index (relays u)); discriminate.
  - destruct (row_at (render u) index) as [r|] eqn:Hrow; [|discriminate].
    apply row_at_inside in Hrow as [Hlt Hrem].
    destruct (row_remove r); [|discriminate].
    intros H. inversion H.
    pose proof (removeRelayInput_removes_one_row_aux u index Hlt) as Hlen.
    symmetry in Hrem. apply Nat.ltb_lt in Hrem.
    intros E. rewrite E in Hlen. simpl in Hlen. lia.
  - intros H. inversion H. auto.
  - intros H. inversion H. auto.
  - intros H. inversion H. auto.
Qed.

(** X19.  Nothing the user can do with the inputs and buttons of the page
    empties the relay list: from a component with at least one relay, as the
    initial one is, every session of offered actions ends with at least one
    relay.  The handler of the clone button, which is not one of these
    actions, never sets the relay list. *)
Theorem session_keeps_a_relay (acts : list Action) (u0 u : UI) :
  relays u0 <> [] ->
  session acts u0 = Some u ->
  relays u <> [].
Proof.
  revert u0. induction acts as [|a acts IH]; intros u0 Hr; simpl.
  - intros H. inversion H; subst u. exact Hr.
  - destruct (act a u0) as [u1|] eqn:Ha; [|discriminate].
    apply IH. exact (act_keeps_a_relay a u0 u1 Hr Ha).
Qed.

(** *** The further statements tried on the concrete worlds *)

Lemma failed_run_publishes_nothing_witness :
  only is_publish (trace (Demo.run Demo.accept_all
     (Demo.component "npub1alice" "bob" Demo.two_relays))) = [].
Proof.
  apply (failed_run_publishes_nothing
           Demo.nip19_decode Demo.pool_querySync Demo.getPublicKey
           Demo.getEventHash Demo.schnorr_sign Demo.Date_now Demo.accept_all
           (Demo.component "npub1alice" "bob" Demo.two_relays)).
  vm_compute. discriminate.
Defined.

Lemma failure_is_logged_once_witness :
  exists t e,
    trace (Demo.run Demo.accept_all
             (Demo.component "npub1nobody" "nsec1bob" Demo.two_relays)) =
      t ++ [CConsoleError "Error fetching/cloning events:" e] /\
    only is_error_log t = [] /\
    NoEventsFound = message_of e /\
    (forall v, e = JsValue v -> NoEventsFound = "Unknown error occurred").
Proof.
  apply (proj2 (failure_is_logged_once
           Demo.nip19_decode Demo.pool_querySync Demo.getPublicKey
           Demo.getEventHash Demo.schnorr_sign Demo.Date_now Demo.accept_all
           (Demo.component "npub1nobody" "nsec1bob" Demo.two_relays))
           NoEventsFound).
  reflexivity.
Defined.

Lemma source_key_decode_throws_witness :
  error (ui (Demo.run Demo.accept_all
          (Demo.component "npub1broken" "nsec1bob" Demo.two_relays)))
    = Some "Unknown prefix".
Proof.
  apply (source_key_decode_throws
           Demo.nip19_decode Demo.pool_querySync Demo.getPublicKey
           Demo.getEventHash Demo.schnorr_sign Demo.Date_now Demo.accept_all
           (Demo.component "npub1broken" "nsec1bob" Demo.two_relays)
           (JsError "Unknown prefix"));
    reflexivity.
Defined.

Lemma query_rejection_is_fatal_witness :
  error (ui (final Demo.nip19_decode Faulty.querySync_down Demo.getPublicKey
               Demo.getEventHash Demo.schnorr_sign Demo.Date_now
               Demo.accept_all
               (Demo.component "npub1alice" "nsec1bob" Demo.two_relays)))
    = Some "Unknown error occurred".
Proof.
  apply (query_rejection_is_fatal
           Demo.nip19_decode Faulty.querySync_down Demo.getPublicKey
           Demo.getEventHash Demo.schnorr_sign Demo.Date_now Demo.accept_all
           (Demo.component "npub1alice" "nsec1bob" Demo.two_relays)
           "a11ce" (JsValue "offline"));
    reflexivity.
Defined.

Lemma destination_key_library_failure_witness :
  error (ui (Demo.run Demo.accept_all
          (Demo.component "npub1alice" "nsec1broken" Demo.two_relays)))
    = Some "Unknown prefix" /\
  error (ui (final Demo.nip19_decode Demo.pool_querySync
               Faulty.getPublicKey_refuses Demo.getEventHash
               Demo.schnorr_sign Demo.Date_now Demo.accept_all
               (Demo.component "npub1alice" "nsec1bob" Demo.two_relays)))
    = Some "invalid private key".
Proof.
  split.
  - apply (proj1 (destination_key_library_failure
             Demo.nip19_decode Demo.pool_querySync Demo.getPublicKey
             Demo.getEventHash Demo.schnorr_sign Demo.Date_now Demo.accept_all
             (Demo.component "npub1alice" "nsec1broken" Demo.two_relays)
             "a11ce" Demo.fetched (JsError "Unknown prefix")
             eq_refl eq_refl eq_refl ltac:(discriminate) eq_refl)).
    reflexivity.
  - apply (proj2 (destination_key_library_failure
             Demo.nip19_decode Demo.pool_querySync Faulty.getPublicKey_refuses
             Demo.getEventHash Demo.schnorr_sign Demo.Date_now Demo.accept_all
             (Demo.component "npub1alice" "nsec1bob" Demo.two_relays)
             "a11ce" Demo.fetched (JsError "invalid private key")
             eq_refl eq_refl eq_refl ltac:(discriminate) eq_refl)
             [Byte.x07]);
      reflexivity.
Defined.

Lemma signing_failure_stops_before_publishing_witness :
  error (ui (final Demo.nip19_decode Demo.pool_querySync Demo.getPublicKey
               Demo.getEventHash Faulty.sign_fails_on_second Demo.Date_now
               Demo.accept_all
               (Demo.component "npub1alice" "nsec1bob" Demo.two_relays)))
    = Some "signing failed".
Proof.
  apply (signing_failure_stops_before_publishing
           Demo.nip19_decode Demo.pool_querySync Demo.getPublicKey
           Demo.getEventHash Faulty.sign_fails_on_second Demo.Date_now
           Demo.accept_all
           (Demo.component "npub1alice" "nsec1bob" Demo.two_relays)
           "a11ce" Demo.fetched [Byte.x07] "b0b" (JsError "signing failed"));
    try reflexivity.
  discriminate.
Defined.

Lemma done_run_call_counts_witness :
  length (only is_publish (trace (Demo.run Demo.reject_first_two
     (Demo.component "npub1alice" "nsec1bob" Demo.two_relays)))) = 2 * 2.
Proof.
  apply (done_run_call_counts
           Demo.nip19_decode Demo.pool_querySync Demo.getPublicKey
           Demo.getEventHash Demo.schnorr_sign Demo.Date_now
           Demo.reject_first_two
           (Demo.component "npub1alice" "nsec1bob" Demo.two_relays)
           "a11ce" Demo.fetched [Byte.x07] "b0b"
           (events (ui (Demo.run Demo.reject_first_two
              (Demo.component "npub1alice" "nsec1bob" Demo.two_relays)))));
    try reflexivity.
  discriminate.
Defined.

Lemma done_run_all_accepted_witness :
  only is_warn (trace (Demo.run Demo.accept_all
     (Demo.component "npub1alice" "nsec1bob" Demo.two_relays))) = [].
Proof.
  apply (done_run_all_accepted
           Demo.nip19_decode Demo.pool_querySync Demo.getPublicKey
           Demo.getEventHash Demo.schnorr_sign Demo.Date_now Demo.accept_all
           (Demo.component "npub1alice" "nsec1bob" Demo.two_relays)
           "a11ce" Demo.fetched [Byte.x07] "b0b"
           (events (ui (Demo.run Demo.accept_all
              (Demo.component "npub1alice" "nsec1bob" Demo.two_relays)))));
    try reflexivity; try discriminate.
  intros k r ev. unfold Demo.accept_all.
  induction r as [|x r IH]; simpl; auto.
Defined.

Lemma clone_timestamp_is_the_second_of_its_reading_witness :
  (1000 * 1700000001 <= Demo.Date_now 1 < 1000 * 1700000001 + 1000)%Z.
Proof.
  apply (clone_timestamp_is_the_second_of_its_reading
           Demo.nip19_decode Demo.pool_querySync Demo.getPublicKey
           Demo.getEventHash Demo.schnorr_sign Demo.Date_now Demo.accept_all
           (Demo.component "npub1alice" "nsec1bob" Demo.two_relays)
           "a11ce" Demo.fetched [Byte.x07] "b0b"
           (events (ui (Demo.run Demo.accept_all
              (Demo.component "npub1alice" "nsec1bob" Demo.two_relays))))
           eq_refl eq_refl eq_refl ltac:(discriminate) eq_refl eq_refl
           eq_refl eq_refl 1
           {| Event.id := "hash(b0b,pv)"; Event.pubkey := "b0b";
              Event.created_at := 1700000001; Event.kind := 1;
              Event.tags := [["t"; "demo"]]; Event.content := "pv";
              Event.sig := "signed(hash(b0b,pv))" |}).
  reflexivity.
Defined.

Lemma page_after_done_run_witness :
  exists r,
    view_results (render (ui (Demo.run Demo.by_relay
       (Demo.component "npub1alice" "nsec1bob" Demo.two_relays)))) = Some r /\
    res_status r = Some "Complete!" /\
    res_error r = None /\
    map card_content (res_cards r) = ["gm"; "pv"].
Proof.
  destruct (page_after_done_run
           Demo.nip19_decode Demo.pool_querySync Demo.getPublicKey
           Demo.getEventHash Demo.schnorr_sign Demo.Date_now Demo.by_relay
           (Demo.component "npub1alice" "nsec1bob" Demo.two_relays)
           "a11ce" Demo.fetched [Byte.x07] "b0b"
           (events (ui (Demo.run Demo.by_relay
              (Demo.component "npub1alice" "nsec1bob" Demo.two_relays))))
           eq_refl eq_refl eq_refl ltac:(discriminate) eq_refl eq_refl
           eq_refl eq_refl)
    as (r & H1 & H2 & H3 & H4 & _).
  exists r. auto.
Defined.

Lemma error_is_shown_only_with_events_witness :
  view_results (render (ui (Demo.run Demo.accept_all
     (with_events [] (Demo.component "npub1nobody" "" Demo.two_relays)))))
    = None.
Proof.
  apply (proj1 (error_is_shown_only_with_events
           Demo.nip19_decode Demo.pool_querySync Demo.getPublicKey
           Demo.getEventHash Demo.schnorr_sign Demo.Date_now Demo.accept_all
           (with_events [] (Demo.component "npub1nobody" "" Demo.two_relays))
           NoEventsFound eq_refl)).
  reflexivity.
Defined.

Lemma removeRelayInput_removes_one_row_witness :
  relays (removeRelayInput 0 (Demo.component "" "" Demo.two_relays))
    = ["wss://good"] /\
  removeRelayInput 5 (Demo.component "" "" Demo.two_relays)
    = Demo.component "" "" Demo.two_relays.
Proof.
  split.
  - apply (proj1 (removeRelayInput_removes_one_row
                    (Demo.component "" "" Demo.two_relays) 0)).
    simpl. lia.
  - apply (proj2 (removeRelayInput_removes_one_row
                    (Demo.component "" "" Demo.two_relays) 5)).
    simpl. lia.
Defined.

Lemma updateRelay_writes_one_row_witness :
  (exists u',
     updateRelay 0 "wss://new" (Demo.component "" "" Demo.two_relays)
       = Some u' /\
     nth_error (relays u') 0 = Some "wss://new") /\
  updateRelay 9 "wss://new" (Demo.component "" "" Demo.two_relays) = None.
Proof.
  split.
  - destruct (proj1 (updateRelay_writes_one_row
                       (Demo.component "" "" Demo.two_relays) 0 "wss://new"))
      as (u' & H1 & _ & H3 & _).
    + simpl. lia.
    + exists u'. auto.
  - apply (proj2 (proj2 (updateRelay_writes_one_row
                    (Demo.component "" "" Demo.two_relays) 9 "wss://new"))).
    simpl. lia.
Defined.

Lemma session_keeps_a_relay_witness :
  exists u, session Faulty.clicks App_initial = Some u /\ relays u <> [].
Proof.
  eexists. split; [reflexivity|].
  eapply (session_keeps_a_relay Faulty.clicks App_initial).
  - discriminate.
  - reflexivity.
Defined.
